(** * The generic channel object of liquid (src/channel/src/channel.c)

    A shallow embedding of the channel impairment engine: the structure
    [CHANNEL(_s)], its constructor, the three configurators
    ([_add_awgn], [_add_carrier_offset], [_add_multipath]) and the sample
    loop [_execute], followed by the properties the specification states
    about them.

    The C file is a template: the macros [T], [TC], [TI], [TO], [NCO()],
    [FIRFILT()] and [EXTENSION_FULL] are supplied by the including file,
    and [randnf], [powf] come from other libraries.  They are interfaces
    here, and every property below holds for all their implementations.
    The embedding follows the complex float instance the comments of the
    file speak of ("TODO: test for types other than float complex"): [T]
    is [float] and [TC], [TI], [TO] are [float complex]. *)

From Stdlib Require Import ZArith NArith String Ascii List Lia.
From Stdlib Require Import Floats.SpecFloat.
From stdpp Require Import base option list.

Set Implicit Arguments.
Set Default Proof Using "Type".

(** ** Complex values

    A [float complex] is a pair of floats.  C evaluates an operator with
    one real and one complex operand component by component, without
    first widening the real operand; each mixed operator below is one of
    those cases. *)

Record complex (F : Type) : Type := Cplx { re : F; im : F }.

Arguments Cplx {F} re im.

Section ComplexArith.
Variable F : Type.
Variables (f_zero f_one : F).
Variables (fadd fmul : F -> F -> F).

(** the macro [_Complex_I] *)
Definition Complex_I : complex F := Cplx f_zero f_one.

(** conversion of a real to a complex on assignment, [z = r] *)
Definition c_of_real (r : F) : complex F := Cplx r f_zero.

(** [r * z] *)
Definition rc_mul (r : F) (z : complex F) : complex F :=
    Cplx (fmul r (re z)) (fmul r (im z)).

(** [z * r] *)
Definition cr_mul (z : complex F) (r : F) : complex F :=
    Cplx (fmul (re z) r) (fmul (im z) r).

(** [r + z] *)
Definition rc_add (r : F) (z : complex F) : complex F :=
    Cplx (fadd r (re z)) (im z).

(** [z + w] *)
Definition cc_add (z w : complex F) : complex F :=
    Cplx (fadd (re z) (re w)) (fadd (im z) (im w)).

(** componentwise change of format, [(double complex) z] and back *)
Definition c_map (G : Type) (f : F -> G) (z : complex F) : complex G :=
    Cplx (f (re z)) (f (im z)).
End ComplexArith.

(** ** The channel structure *)

Section ChannelState.
Variable F : Type.            (* float *)
Variable NCO : Type.          (* NCO() *)
Variable FIRFILT : Type.      (* FIRFILT() *)

Record channel : Type := Channel {
    (* additive white Gauss noise *)
    enabled_awgn : Z;
    gamma : F;
    nstd : F;
    noise_floor_dB : F;
    SNRdB : F;
    (* carrier offset *)
    enabled_carrier : Z;
    dphi : F;
    phi : F;
    nco : NCO;
    (* multi-path channel *)
    enabled_multipath : Z;
    channel_filter : option FIRFILT;     (* [None] is the NULL pointer *)
    h : list (complex F);
    h_len : N
  }.

(** C's reading of an [int] as a condition. *)
Definition nonzero (flag : Z) : bool := negb (flag =? 0)%Z.

(** Assignments to single members, [_q->member = v]. *)
Definition set_awgn (q : channel) (en : Z) (nf snr sd g : F) : channel :=
  {| enabled_awgn := en; gamma := g; nstd := sd;
     noise_floor_dB := nf; SNRdB := snr;
     enabled_carrier := enabled_carrier q; dphi := dphi q; phi := phi q;
     nco := nco q;
     enabled_multipath := enabled_multipath q;
     channel_filter := channel_filter q; h := h q; h_len := h_len q |}.

Definition set_carrier (q : channel) (en : Z) (fr ph : F) : channel :=
  {| enabled_awgn := enabled_awgn q; gamma := gamma q; nstd := nstd q;
     noise_floor_dB := noise_floor_dB q; SNRdB := SNRdB q;
     enabled_carrier := en; dphi := fr; phi := ph;
     nco := nco q;
     enabled_multipath := enabled_multipath q;
     channel_filter := channel_filter q; h := h q; h_len := h_len q |}.

Definition set_nco (q : channel) (n : NCO) : channel :=
  {| enabled_awgn := enabled_awgn q; gamma := gamma q; nstd := nstd q;
     noise_floor_dB := noise_floor_dB q; SNRdB := SNRdB q;
     enabled_carrier := enabled_carrier q; dphi := dphi q; phi := phi q;
     nco := n;
     enabled_multipath := enabled_multipath q;
     channel_filter := channel_filter q; h := h q; h_len := h_len q |}.

Definition set_enabled_multipath (q : channel) (en : Z) : channel :=
  {| enabled_awgn := enabled_awgn q; gamma := gamma q; nstd := nstd q;
     noise_floor_dB := noise_floor_dB q; SNRdB := SNRdB q;
     enabled_carrier := enabled_carrier q; dphi := dphi q; phi := phi q;
     nco := nco q;
     enabled_multipath := en;
     channel_filter := channel_filter q; h := h q; h_len := h_len q |}.

Definition set_channel_filter (q : channel) (f : option FIRFILT) : channel :=
  {| enabled_awgn := enabled_awgn q; gamma := gamma q; nstd := nstd q;
     noise_floor_dB := noise_floor_dB q; SNRdB := SNRdB q;
     enabled_carrier := enabled_carrier q; dphi := dphi q; phi := phi q;
     nco := nco q;
     enabled_multipath := enabled_multipath q;
     channel_filter := f; h := h q; h_len := h_len q |}.

Definition set_h (q : channel) (hs : list (complex F)) : channel :=
  {| enabled_awgn := enabled_awgn q; gamma := gamma q; nstd := nstd q;
     noise_floor_dB := noise_floor_dB q; SNRdB := SNRdB q;
     enabled_carrier := enabled_carrier q; dphi := dphi q; phi := phi q;
     nco := nco q;
     enabled_multipath := enabled_multipath q;
     channel_filter := channel_filter q; h := hs; h_len := h_len q |}.

Definition set_h_len (q : channel) (n : N) : channel :=
  {| enabled_awgn := enabled_awgn q; gamma := gamma q; nstd := nstd q;
     noise_floor_dB := noise_floor_dB q; SNRdB := SNRdB q;
     enabled_carrier := enabled_carrier q; dphi := dphi q; phi := phi q;
     nco := nco q;
     enabled_multipath := enabled_multipath q;
     channel_filter := channel_filter q; h := h q; h_len := n |}.

(** The members of each of the three parts of the structure. *)
Definition noise_members (q : channel) : Z * F * F * F * F :=
  (enabled_awgn q, gamma q, nstd q, noise_floor_dB q, SNRdB q).

Definition carrier_members (q : channel) : Z * F * F * NCO :=
  (enabled_carrier q, dphi q, phi q, nco q).

Definition multipath_members (q : channel)
    : Z * option FIRFILT * list (complex F) * N :=
  (enabled_multipath q, channel_filter q, h q, h_len q).

(** Every stage that is on in [q] is on in [q']. *)
Definition stays_enabled (q q' : channel) : Prop :=
  (nonzero (enabled_awgn q) = true -> nonzero (enabled_awgn q') = true) /\
  (nonzero (enabled_carrier q) = true -> nonzero (enabled_carrier q') = true) /\
  (nonzero (enabled_multipath q) = true ->
   nonzero (enabled_multipath q') = true).
End ChannelState.

Arguments Channel {F NCO FIRFILT}.

(** ** The rest of the process

    [randnf] draws from a generator kept in a global of the library, and
    the diagnostics go to the standard streams: the part of the process
    outside the channel object that the functions read or write. *)

Record process (RNG : Type) : Type := Process {
  rand : RNG;                 (* state behind [randnf()] *)
  stderr : list string;       (* what was written to stderr, oldest first *)
  stdout : list string
}.

Arguments Process {RNG}.

Definition set_rand {RNG} (p : process RNG) (g : RNG) : process RNG :=
  {| rand := g; stderr := stderr p; stdout := stdout p |}.

Definition fprintf_stderr {RNG} (p : process RNG) (msg : string) : process RNG :=
  {| rand := rand p; stderr := stderr p ++ [msg]; stdout := stdout p |}.

Definition printf {RNG} (p : process RNG) (msg : string) : process RNG :=
  {| rand := rand p; stderr := stderr p; stdout := stdout p ++ [msg] |}.

(** ** How a call ends

    A call returns a value, or stops the process with [exit], or does
    something C gives no meaning to (an access outside an array, a use
    of the NULL filter).  [St] is what is left behind at an [exit]. *)

Inductive outcome (St A : Type) : Type :=
| Returns (a : A)
| Exits (status : Z) (at_exit : St)
| Undefined.

Arguments Returns {St A} a.
Arguments Exits {St A} status at_exit.
Arguments Undefined {St A}.

Global Instance outcome_ret St : MRet (outcome St) := fun A a => Returns a.

Global Instance outcome_bind St : MBind (outcome St) := fun A B k m =>
  match m with
  | Returns a => k a
  | Exits status s => Exits status s
  | Undefined => Undefined
  end.

(** [returns m Q]: the call does not exit, and if it returns, it returns
    a value in [Q]. *)
Definition returns {St A : Type} (m : outcome St A) (Q : A -> Prop) : Prop :=
  match m with
  | Returns a => Q a
  | Exits _ _ => False
  | Undefined => True
  end.

Section Memory.
Context {St A : Type}.

(** [l[i]] as an rvalue *)
Definition load (l : list A) (i : nat) : outcome St A :=
  match l !! i with
  | Some v => Returns v
  | None => Undefined
  end.

(** [l[i] = v] *)
Definition store (l : list A) (i : nat) (v : A) : outcome St (list A) :=
  if decide (i < length l) then Returns (<[i:=v]> l) else Undefined.

(** [realloc(l, n * sizeof(A))]: the common prefix is kept, what is
    added holds whatever the allocator left there ([junk]). *)
Definition realloc (junk : A) (l : list A) (n : nat) : list A :=
  take n l ++ replicate (n - length l) junk.

(** [memmove(dst, src, n * sizeof(A))] on separate arrays *)
Definition memmove (dst src : list A) (n : nat) : outcome St (list A) :=
  if decide (n <= length src /\ n <= length dst)
  then Returns (take n src ++ drop n dst)
  else Undefined.

(** [for (i = first; i < first + count; i++) body] *)
Fixpoint for_loop (X : Type) (body : nat -> X -> outcome St X)
    (i count : nat) (s : X) : outcome St X :=
  match count with
  | O => Returns s
  | S c => s' ← body i s; for_loop body (S i) c s'
  end.
End Memory.

(** ** What the template is instantiated with

    The arithmetic of [float] and [double], the generator behind
    [randnf], the oscillator [NCO()] and the filter [FIRFILT()] are not
    part of channel.c; each is an interface here. *)

(** [float] is [F], [double] is [D]. *)
Class FloatOps (F D : Type) : Type := {
  f_zero : F;                 (* 0.0f *)
  f_one : F;                  (* 1.0f *)
  f_ten : F;                  (* 10.0f *)
  f_twenty : F;               (* 20.0f *)
  f_005 : F;                  (* 0.05f *)
  fadd : F -> F -> F;
  fmul : F -> F -> F;
  fdiv : F -> F -> F;
  powf : F -> F -> F;
  M_SQRT1_2 : D;
  dadd : D -> D -> D;
  dmul : D -> D -> D;
  to_double : F -> D;         (* (double) x *)
  to_float : D -> F           (* (float) x *)
}.

(** [randnf()] reads and advances a generator.  C does not fix which
    operand of a binary operator is evaluated first; [lhs_first] is the
    compiler's choice, and decides which of the two draws in one
    expression is the earlier one. *)
Class Randn (F RNG : Type) : Type := {
  randnf : RNG -> F * RNG;
  lhs_first : bool
}.

(** The calls channel.c makes on its oscillator.  [nco_mix_up] returns
    the sample it writes and the oscillator it leaves. *)
Class Oscillator (F NCO : Type) : Type := {
  liquid_ncotype : Type;
  LIQUID_VCO : liquid_ncotype;
  nco_create : liquid_ncotype -> NCO;
  nco_set_frequency : NCO -> F -> NCO;
  nco_set_phase : NCO -> F -> NCO;
  nco_mix_up : NCO -> complex F -> complex F * NCO
}.

(** The calls channel.c makes on its filter.  [firfilt_execute] returns
    the sample it writes and the filter it leaves. *)
Class Filter (F FIRFILT : Type) : Type := {
  firfilt_create : list (complex F) -> N -> FIRFILT;
  firfilt_push : FIRFILT -> complex F -> FIRFILT;
  firfilt_execute : FIRFILT -> complex F * FIRFILT
}.

(** The name the instance prints, and what [realloc] leaves in the part
    of an array it adds. *)
Class Template (F : Type) : Type := {
  EXTENSION_FULL : string;
  realloc_junk : complex F
}.

(** ** The functions of channel.c *)

Section Channel.
Context {F D RNG NCO FIRFILT : Type}.
Context {float_ops : FloatOps F D} {randn : Randn F RNG}.
Context {oscillator : Oscillator F NCO} {filter : Filter F FIRFILT}.
Context {template : Template F}.

Local Abbreviation TC := (complex F).
Local Abbreviation chan := (channel F NCO FIRFILT).
Local Abbreviation proc := (process RNG).
Local Abbreviation state := (chan * proc)%type.
Local Abbreviation _Complex_I := (Complex_I f_zero f_one).

Definition newline : string := String (ascii_of_nat 10) EmptyString.

(** *** create

    [fresh] is the block [malloc] hands back: the members the
    constructor does not assign keep what the block held.  The two
    parameters are not used by the function. *)
Definition create (fresh : chan) (_h : option (list TC)) (_n : N) : chan :=
  {| enabled_awgn := 0;
     gamma := gamma fresh; nstd := nstd fresh;
     noise_floor_dB := noise_floor_dB fresh; SNRdB := SNRdB fresh;
     enabled_carrier := 0;
     dphi := dphi fresh; phi := phi fresh;
     nco := nco_create LIQUID_VCO;
     enabled_multipath := 0;
     channel_filter := None;
     h := [c_of_real f_zero f_one];
     h_len := 1 |}.

(** *** print *)
Definition print (q : chan) (p : proc) : proc :=
  let p := printf p ("channel" ++ newline) in
  if nonzero (enabled_awgn q) then printf p ("  AWGN:" ++ newline) else p.

(** *** add_awgn *)
Definition add_awgn (q : chan) (_noise_floor_dB _SNRdB : F) : chan :=
  set_awgn q 1 _noise_floor_dB _SNRdB
    (powf f_ten (fdiv _noise_floor_dB f_twenty))
    (powf f_ten (fdiv (fadd _SNRdB _noise_floor_dB) f_twenty)).

(** *** add_carrier_offset *)
Definition add_carrier_offset (q : chan) (_frequency _phase : F) : chan :=
  let q := set_carrier q 1 _frequency _phase in
  let q := set_nco q (nco_set_frequency (nco q) (dphi q)) in
  set_nco q (nco_set_phase (nco q) (phi q)).

(** Two calls of [randnf()] as the operands of one operator: the value
    of the left operand, the value of the right one, the generator. *)
Definition randnf_operands (g : RNG) : F * F * RNG :=
  let '(d1, g1) := randnf g in
  let '(d2, g2) := randnf g1 in
  if lhs_first then (d1, d2, g2) else (d2, d1, g2).

(** *** add_multipath *)

Definition warning_zero : string :=
  "warning: channel_" ++ EXTENSION_FULL ++
  "_add_multipath(), filter length is zero (ignoring)" ++ newline.

Definition warning_maximum : string :=
  "warning: channel_" ++ EXTENSION_FULL ++
  "_add_multipath(), filter length exceeds maximum" ++ newline.

(** [0.05f * ( randnf() * _Complex_I*randnf() )] *)
Definition random_tap (a b : F) : TC :=
  rc_mul fmul f_005 (cr_mul fmul (rc_mul fmul a _Complex_I) b).

(** one turn of [for (i=1; i<_q->h_len; i++) _q->h[i] = ...] *)
Definition random_tap_step (i : nat) (s : list TC * RNG)
    : outcome state (list TC * RNG) :=
  let '(a, b, g) := randnf_operands (snd s) in
  hs ← store (fst s) i (random_tap a b);
  mret (hs, g).

Definition add_multipath (q : chan) (p : proc)
    (_h : option (list TC)) (_h_len : N) : outcome state state :=
  if (_h_len =? 0)%N then
    mret (q, fprintf_stderr p warning_zero)
  else if (1000 <? _h_len)%N then
    Exits 1 (q, fprintf_stderr p warning_maximum)
  else
    let q := set_enabled_multipath q 1 in
    let q := if negb (h_len q =? _h_len)%N
             then set_h q (realloc realloc_junk (h q) (N.to_nat _h_len))
             else q in
    let q := set_h_len q _h_len in
    '(hs, g) ← match _h with
               | None =>
                   hs ← store (h q) 0 (c_of_real f_zero f_one);
                   for_loop random_tap_step 1 (N.to_nat (h_len q) - 1)
                            (hs, rand p)
               | Some src =>
                   hs ← memmove (h q) src (N.to_nat (h_len q));
                   mret (hs, rand p)
               end;
    let q := set_h q hs in
    (* the filter that was there, if any, is destroyed here *)
    let q := set_channel_filter q (Some (firfilt_create (h q) (h_len q))) in
    mret (q, set_rand p g).

(** The taps the loop above writes, as a list: [n] of them, from the
    generator [g] on. *)
Fixpoint random_taps (n : nat) (g : RNG) : list TC * RNG :=
  match n with
  | O => ([], g)
  | S n =>
      let '(a, b, g) := randnf_operands g in
      let '(ts, g) := random_taps n g in
      (random_tap a b :: ts, g)
  end.

(** *** execute *)

(** [_q->nstd * ( randnf() + _Complex_I*randnf() ) * M_SQRT1_2]: the
    last factor is a [double], so the product is taken in [double]. *)
Definition noise_term (sd a b : F) : complex D :=
  cr_mul dmul
    (c_map to_double (rc_mul fmul sd (rc_add fadd a (cr_mul fmul _Complex_I b))))
    M_SQRT1_2.

(** [y += z] with [y] a [float complex] and [z] a [double complex] *)
Definition add_assign_double (y : TC) (z : complex D) : TC :=
  c_map to_float (cc_add dadd (c_map to_double y) z).

(** the body of the loop, for index [i] *)
Definition execute_sample (_x : list TC) (i : nat)
    (s : chan * proc * list TC) : outcome state (chan * proc * list TC) :=
  let '(q, p, _y) := s in
  (* apply filter *)
  '(q, _y) ←
    (if nonzero (enabled_multipath q) then
       match channel_filter q with
       | None => Undefined
       | Some f =>
           xi ← load _x i;
           let f := firfilt_push f xi in
           let '(v, f) := firfilt_execute f in
           _y ← store _y i v;
           mret (set_channel_filter q (Some f), _y)
       end
     else
       xi ← load _x i;
       _y ← store _y i xi;
       mret (q, _y));
  (* apply carrier if enabled *)
  '(q, _y) ←
    (if nonzero (enabled_carrier q) then
       yi ← load _y i;
       let '(v, n) := nco_mix_up (nco q) yi in
       _y ← store _y i v;
       mret (set_nco q n, _y)
     else mret (q, _y));
  (* apply AWGN if enabled *)
  if nonzero (enabled_awgn q) then
    yi ← load _y i;
    _y ← store _y i (cr_mul fmul yi (gamma q));
    let '(a, b, g) := randnf_operands (rand p) in
    yi ← load _y i;
    _y ← store _y i (add_assign_double yi (noise_term (nstd q) a b));
    mret (q, set_rand p g, _y)
  else mret (q, p, _y).

(** The result is the channel, the process, the array [_y] and [*_ny].
    [_x] and [_y] are separate arrays (or the same one: each turn reads
    [_x[i]] before it writes [_y[i]]). *)
Definition execute (q : chan) (p : proc) (_x : list TC) (_nx : N)
    (_y : list TC) : outcome state (chan * proc * list TC * N) :=
  '(q, p, _y) ← for_loop (execute_sample _x) 0 (N.to_nat _nx) (q, p, _y);
  mret (q, p, _y, _nx).

(** *** The life of one channel object

    Between [create] and [destroy] a caller applies the other functions
    of the interface, in any order.  ([destroy] releases the object and
    ends this sequence; it is not a step of it.) *)

Inductive operation : Type :=
| Op_add_awgn (_noise_floor_dB _SNRdB : F)
| Op_add_carrier_offset (_frequency _phase : F)
| Op_add_multipath (_h : option (list TC)) (_h_len : N)
| Op_execute (_x : list TC) (_nx : N) (_y : list TC)
| Op_print.

Definition apply_operation (o : operation) (s : state) : outcome state state :=
  let '(q, p) := s in
  match o with
  | Op_add_awgn nf snr => mret (add_awgn q nf snr, p)
  | Op_add_carrier_offset fr ph => mret (add_carrier_offset q fr ph, p)
  | Op_add_multipath _h _h_len => add_multipath q p _h _h_len
  | Op_execute _x _nx _y =>
      '(q, p, _, _) ← execute q p _x _nx _y; mret (q, p)
  | Op_print => mret (q, print q p)
  end.

Fixpoint run (ops : list operation) (s : state) : outcome state state :=
  match ops with
  | [] => mret s
  | o :: ops => s ← apply_operation o s; run ops s
  end.

(** The channel a sequence of operations leaves, when there is one:
    the one it returns with, or the one the process exits with. *)
Definition channel_left (r : outcome state state) : option chan :=
  match r with
  | Returns s => Some (fst s)
  | Exits _ s => Some (fst s)
  | Undefined => None
  end.

(** *** Consistency of a channel object

    What [create] establishes and every function keeps: a channel whose
    multipath stage is on owns a filter, and [h] has [h_len] elements. *)
Definition filter_ready (q : chan) : Prop :=
  nonzero (enabled_multipath q) = true -> is_Some (channel_filter q).

Definition h_consistent (q : chan) : Prop :=
  length (h q) = N.to_nat (h_len q).

(** ** The pipeline as the specification describes it (4.5)

    One function per stage, each the identity when its stage is off,
    composed in the order multipath, carrier, noise and mapped over the
    samples from first to last. *)

(** Multipath: push the sample into the owned filter, pop the output.
    (The specification has no channel with the stage on and no filter;
    the value passes there.) *)
Definition stage_multipath (q : chan) (v : TC) : chan * TC :=
  if nonzero (enabled_multipath q) then
    match channel_filter q with
    | Some f =>
        let '(w, f') := firfilt_execute (firfilt_push f v) in
        (set_channel_filter q (Some f'), w)
    | None => (q, v)
    end
  else (q, v).

(** Carrier: mix the value up by the oscillator, which advances. *)
Definition stage_carrier (q : chan) (v : TC) : chan * TC :=
  if nonzero (enabled_carrier q) then
    let '(w, n) := nco_mix_up (nco q) v in (set_nco q n, w)
  else (q, v).

(** Noise: scale by the gain, then add
    [noiseStdDev * (g1 + i*g2) * (1/sqrt 2)] for two fresh draws. *)
Definition stage_noise (q : chan) (p : proc) (v : TC) : proc * TC :=
  if nonzero (enabled_awgn q) then
    let '(g1, g2, g) := randnf_operands (rand p) in
    let scaled := cr_mul fmul v (gamma q) in
    let perturbation :=
      cr_mul dmul
        (c_map to_double
           (rc_mul fmul (nstd q) (rc_add fadd g1 (cr_mul fmul _Complex_I g2))))
        M_SQRT1_2 in
    (set_rand p g,
     c_map to_float (cc_add dadd (c_map to_double scaled) perturbation))
  else (p, v).

Definition pipeline_sample (q : chan) (p : proc) (v : TC) : chan * proc * TC :=
  let '(q, v) := stage_multipath q v in
  let '(q, v) := stage_carrier q v in
  let '(p, v) := stage_noise q p v in
  (q, p, v).

Fixpoint pipeline (q : chan) (p : proc) (xs : list TC)
    : chan * proc * list TC :=
  match xs with
  | [] => (q, p, [])
  | v :: xs =>
      let '(q, p, w) := pipeline_sample q p v in
      let '(q, p, ws) := pipeline q p xs in
      (q, p, w :: ws)
  end.

(** *** destroy

    [destroy] hands every object the channel owns back to its library;
    the model records the calls it makes, in order. *)
Inductive call : Type :=
| Call_nco_destroy (n : NCO)              (* NCO(_destroy)(n) *)
| Call_free_h (hs : list TC)              (* free(_q->h) *)
| Call_firfilt_destroy (f : FIRFILT)      (* FIRFILT(_destroy)(f) *)
| Call_firfilt_create (f : FIRFILT)       (* f = FIRFILT(_create)(..) *)
| Call_free_channel (q : chan).           (* free(_q) *)

Definition destroy (q : chan) : list call :=
  [Call_nco_destroy (nco q); Call_free_h (h q)] ++
  match channel_filter q with
  | Some f => [Call_firfilt_destroy f]
  | None => []
  end ++
  [Call_free_channel q].

(** The calls [add_multipath] makes on the filter library (the last two
    statements of the function), when it gets that far: the filter the
    channel had is destroyed, if there was one, and a new one created. *)
Definition add_multipath_calls (q : chan) (p : proc)
    (_h : option (list TC)) (_h_len : N) : list call :=
  match add_multipath q p _h _h_len with
  | Returns (q', _) =>
      if (_h_len =? 0)%N then []
      else
        match channel_filter q with
        | Some f => [Call_firfilt_destroy f]
        | None => []
        end ++
        match channel_filter q' with
        | Some f' => [Call_firfilt_create f']
        | None => []
        end
  | _ => []
  end.

(** The calls on the filter library made while a sequence of operations
    runs; no other operation makes one. *)
Fixpoint run_calls (ops : list operation) (s : state) : list call :=
  match ops with
  | [] => []
  | o :: ops =>
      match o with
      | Op_add_multipath _h _h_len => add_multipath_calls (fst s) (snd s) _h _h_len
      | _ => []
      end ++
      match apply_operation o s with
      | Returns s' => run_calls ops s'
      | _ => []
      end
  end.

Definition is_firfilt_create (c : call) : bool :=
  match c with Call_firfilt_create _ => true | _ => false end.

Definition is_firfilt_destroy (c : call) : bool :=
  match c with Call_firfilt_destroy _ => true | _ => false end.

(** *** Helpers to state properties *)

(** A change of the channel applied to what a call leaves. *)
Definition on_channel (f : chan -> chan) (r : outcome state state)
    : outcome state state :=
  match r with
  | Returns s => Returns (f (fst s), snd s)
  | Exits status s => Exits status (f (fst s), snd s)
  | Undefined => Undefined
  end.

(** The generator after [n] calls of [randnf()]. *)
Definition skip_draws (n : nat) (g : RNG) : RNG :=
  Nat.iter n (fun g => snd (randnf g)) g.

(** [q] with the noise stage switched off, and [q] with only the noise
    stage left as it is. *)
Definition without_noise (q : chan) : chan :=
  set_awgn q 0 (noise_floor_dB q) (SNRdB q) (nstd q) (gamma q).

Definition noise_only (q : chan) : chan :=
  set_enabled_multipath (set_carrier q 0 (dphi q) (phi q)) 0.

Definition is_add_awgn (o : operation) : bool :=
  match o with Op_add_awgn _ _ => true | _ => false end.

Definition is_add_carrier_offset (o : operation) : bool :=
  match o with Op_add_carrier_offset _ _ => true | _ => false end.

Definition is_add_multipath (o : operation) : bool :=
  match o with Op_add_multipath _ _ => true | _ => false end.

End Channel.

(** ** The oscillator as the specification describes it *)

Section SpecOscillator.
Context {F D : Type} {float_ops : FloatOps F D}.

(** [rotate theta x] is [x * exp(i*theta)], the unit-magnitude rotation. *)
Variable rotate : F -> complex F -> complex F.

(** Modelled from the spec: the oscillator behind [NCO()], whose source
    is not part of channel.c.  The specification gives it a frequency and
    a phase, both zero when it is created (4.1), programmed by
    [setFrequency] and [setPhase] (4.3, 6); [mixUp] rotates the sample by
    the current phase and then advances the phase by the frequency
    (4.5). *)
Record spec_nco : Type := SpecNco { nco_phase : F; nco_frequency : F }.

(** Modelled from the spec: "a freshly-created oscillator (initial
    frequency/phase both zero)". *)
Definition spec_nco_create (_ : unit) : spec_nco :=
  {| nco_phase := f_zero; nco_frequency := f_zero |}.

(** Modelled from the spec: [setFrequency]. *)
Definition spec_nco_set_frequency (n : spec_nco) (f : F) : spec_nco :=
  {| nco_phase := nco_phase n; nco_frequency := f |}.

(** Modelled from the spec: [setPhase]. *)
Definition spec_nco_set_phase (n : spec_nco) (ph : F) : spec_nco :=
  {| nco_phase := ph; nco_frequency := nco_frequency n |}.

(** Modelled from the spec: [mixUp], "mix the current pipeline value up
    by the oscillator's current complex rotation, then advance the
    oscillator's phase by its configured frequency offset". *)
Definition spec_nco_mix_up (n : spec_nco) (x : complex F)
    : complex F * spec_nco :=
  (rotate (nco_phase n) x,
   {| nco_phase := fadd (nco_phase n) (nco_frequency n);
      nco_frequency := nco_frequency n |}).

Definition spec_oscillator : Oscillator F spec_nco :=
  {| liquid_ncotype := unit;
     LIQUID_VCO := tt;
     nco_create := spec_nco_create;
     nco_set_frequency := spec_nco_set_frequency;
     nco_set_phase := spec_nco_set_phase;
     nco_mix_up := spec_nco_mix_up |}.
End SpecOscillator.

(** ** A bench to run the functions on

    The template instantiated with IEEE binary32 for [float] and binary64
    for [double] (round to nearest even, from the standard library's
    executable specification), a tape of recorded draws for [randnf], the
    oscillator above and a direct-form filter. *)

Module Bench.

Definition b32 (z : Z) (e : Z) : spec_float := binary_normalize 24 128 z e false.
Definition b64 (z : Z) (e : Z) : spec_float := binary_normalize 53 1024 z e false.

(** change of format, rounding when the target is narrower *)
Definition convert (prec emax : Z) (x : spec_float) : spec_float :=
  match x with
  | S754_finite s m e => binary_normalize prec emax (cond_Zopp s (Z.pos m)) e s
  | _ => x
  end.

(** The integer a float stands for, when it stands for one. *)
Definition integral (x : spec_float) : option Z :=
  match x with
  | S754_zero _ => Some 0%Z
  | S754_finite s m e =>
      if (0 <=? e)%Z then Some (cond_Zopp s (Z.pos m * 2 ^ e))
      else if (Z.pos m mod 2 ^ (- e) =? 0)%Z
           then Some (cond_Zopp s (Z.pos m / 2 ^ (- e)))
           else None
  | _ => None
  end.

(** A stand-in for libm's [powf]: repeated multiplication for an integral
    exponent, NaN for any other. *)
Definition bench_powf (x y : spec_float) : spec_float :=
  match integral y with
  | Some n =>
      let p := Nat.iter (Z.abs_nat n) (SFmul 24 128 x) (b32 1 0) in
      if (0 <=? n)%Z then p else SFdiv 24 128 (b32 1 0) p
  | None => S754_nan
  end.

Global Instance bench_float : FloatOps spec_float spec_float :=
  {| f_zero := S754_zero false;
     f_one := b32 1 0;
     f_ten := b32 10 0;
     f_twenty := b32 20 0;
     f_005 := SFdiv 24 128 (b32 5 0) (b32 100 0);
     fadd := SFadd 24 128;
     fmul := SFmul 24 128;
     fdiv := SFdiv 24 128;
     powf := bench_powf;
     M_SQRT1_2 := SFsqrt 53 1024 (b64 1 (-1));
     dadd := SFadd 53 1024;
     dmul := SFmul 53 1024;
     to_double := convert 53 1024;
     to_float := convert 24 128 |}.

(** [randnf] reads a tape of recorded draws (zero once it is used up);
    the left operand is evaluated first. *)
Definition tape_randnf (t : list spec_float) : spec_float * list spec_float :=
  match t with
  | [] => (S754_zero false, [])
  | d :: t => (d, t)
  end.

Global Instance bench_randn : Randn spec_float (list spec_float) :=
  {| randnf := tape_randnf; lhs_first := true |}.

Definition c_mul (z w : complex spec_float) : complex spec_float :=
  Cplx (SFsub 24 128 (SFmul 24 128 (re z) (re w)) (SFmul 24 128 (im z) (im w)))
       (SFadd 24 128 (SFmul 24 128 (re z) (im w)) (SFmul 24 128 (im z) (re w))).

(** A coarse stand-in for [cexpf]: [1 - t*t/2] for the cosine and [t] for
    the sine. *)
Definition bench_rotate (t : spec_float) (x : complex spec_float)
    : complex spec_float :=
  c_mul x (Cplx (SFsub 24 128 (b32 1 0)
                   (SFmul 24 128 (SFmul 24 128 t t) (b32 1 (-1))))
                t).

Global Instance bench_oscillator : Oscillator spec_float (spec_nco (F:=spec_float)) :=
  spec_oscillator bench_rotate.

(** A direct-form filter: the taps and the most recent samples. *)
Record fir : Type := Fir {
  taps : list (complex spec_float);
  window : list (complex spec_float)
}.

Definition fir_create (hs : list (complex spec_float)) (n : N) : fir :=
  {| taps := take (N.to_nat n) hs;
     window := replicate (N.to_nat n) (Cplx (S754_zero false) (S754_zero false)) |}.

Definition fir_push (f : fir) (x : complex spec_float) : fir :=
  {| taps := taps f; window := take (length (taps f)) (x :: window f) |}.

Definition fir_execute (f : fir) : complex spec_float * fir :=
  (foldr (cc_add (SFadd 24 128)) (Cplx (S754_zero false) (S754_zero false))
         (zip_with c_mul (taps f) (window f)),
   f).

Global Instance bench_filter : Filter spec_float fir :=
  {| firfilt_create := fir_create;
     firfilt_push := fir_push;
     firfilt_execute := fir_execute |}.

Global Instance bench_template : Template spec_float :=
  {| EXTENSION_FULL := "cccf";
     realloc_junk := Cplx S754_nan S754_nan |}.

Definition bench_channel : Type :=
  channel spec_float (spec_nco (F:=spec_float)) fir.

(** A block as [malloc] may return it. *)
Definition raw_block : bench_channel :=
  {| enabled_awgn := 7; gamma := S754_nan; nstd := S754_nan;
     noise_floor_dB := S754_nan; SNRdB := S754_nan;
     enabled_carrier := (-1); dphi := S754_nan; phi := S754_nan;
     nco := {| nco_phase := S754_nan; nco_frequency := S754_nan |};
     enabled_multipath := 3; channel_filter := Some (fir_create [] 5);
     h := []; h_len := 9 |}.

Definition quiet : process (list spec_float) :=
  {| rand := []; stderr := []; stdout := [] |}.

Definition with_tape (t : list spec_float) : process (list spec_float) :=
  {| rand := t; stderr := []; stdout := [] |}.

(** The samples [1], [i] and [2 + 3i]. *)
Definition samples : list (complex spec_float) :=
  [ Cplx (b32 1 0) (S754_zero false);
    Cplx (S754_zero false) (b32 1 0);
    Cplx (b32 2 0) (b32 3 0) ].

Definition blank (n : nat) : list (complex spec_float) :=
  replicate n (Cplx S754_nan S754_nan).

Definition new_channel : bench_channel := create raw_block None 0.

(** The draws [2] and [3], then ones. *)
Definition tape : list spec_float :=
  [b32 2 0; b32 3 0; b32 1 0; b32 1 0; b32 1 0; b32 1 0; b32 1 0; b32 1 0].

(** Noise floor 0 dB at 20 dB SNR, a carrier of 1/8 radian per sample,
    and two taps, the second drawn from the tape. *)
Definition configuration : list (operation (F:=spec_float)) :=
  [ Op_add_awgn (S754_zero false) (b32 20 0);
    Op_add_carrier_offset (b32 1 (-3)) (S754_zero false);
    Op_add_multipath None 2 ].

Definition configured : bench_channel * process (list spec_float) :=
  match run configuration (new_channel, with_tape tape) with
  | Returns s => s
  | _ => (new_channel, quiet)
  end.

(** The configured channel given the three samples as coefficients. *)
Definition three_taps : bench_channel * process (list spec_float) :=
  match add_multipath (fst configured) (snd configured) (Some samples) 3 with
  | Returns s => s
  | _ => configured
  end.

(** A longer life, ended by an over-long [add_multipath]. *)
Definition life : list (operation (F:=spec_float)) :=
  [ Op_execute samples 3 (blank 3);
    Op_add_multipath None 0;
    Op_add_awgn (b32 (-20) 0) (b32 20 0);
    Op_print;
    Op_add_multipath (Some samples) 3;
    Op_add_carrier_offset (S754_zero false) (b32 1 0);
    Op_execute samples 2 (blank 2);
    Op_add_multipath None 1001;
    Op_execute samples 3 (blank 3) ].

Definition life_end : bench_channel :=
  match channel_left (run life configured) with
  | Some q => q
  | None => new_channel
  end.

(** Operations that configure no noise, and the channel they leave. *)
Definition plain_ops : list (operation (F:=spec_float)) :=
  [ Op_execute samples 3 (blank 3);
    Op_print;
    Op_add_multipath (Some samples) 3;
    Op_add_carrier_offset (b32 1 (-2)) (b32 1 0);
    Op_execute samples 2 (blank 2) ].

Definition plain_end : bench_channel :=
  match channel_left (run plain_ops configured) with
  | Some q => q
  | None => new_channel
  end.

(** A whole life from [create]: the configuration, then [life]. *)
Definition whole_life : list (operation (F:=spec_float)) :=
  configuration ++ life.

End Bench.

(** * Properties *)

(** ** The monad of outcomes and the loop *)

Section OutcomeFacts.
Context {St : Type}.

Lemma returns_bind {A B} (m : outcome St A) (k : A -> outcome St B)
    (P : A -> Prop) (Q : B -> Prop) :
  returns m P -> (forall a, P a -> returns (k a) Q) -> returns (m ≫= k) Q.
Proof. destruct m; simpl; auto. Qed.

Lemma returns_weaken {A} (m : outcome St A) (P Q : A -> Prop) :
  returns m P -> (forall a, P a -> Q a) -> returns m Q.
Proof. destruct m; simpl; auto. Qed.

Lemma returns_load {A} (l : list A) i : returns (St:=St) (load l i) (fun _ => True).
Proof. unfold load. destruct (l !! i); simpl; auto. Qed.

Lemma returns_store {A} (l : list A) i v :
  returns (St:=St) (store l i v) (fun l' => l' = <[i:=v]> l /\ i < length l).
Proof. unfold store. case_decide; simpl; auto. Qed.

Lemma returns_memmove {A} (dst src : list A) n :
  returns (St:=St) (memmove dst src n)
    (fun l => l = take n src ++ drop n dst /\ n <= length src /\ n <= length dst).
Proof. unfold memmove. case_decide; simpl; tauto. Qed.

(** An invariant of the body is an invariant of the loop. *)
Lemma returns_for_loop {X} (body : nat -> X -> outcome St X) (P : X -> Prop) :
  (forall i s, P s -> returns (body i s) P) ->
  forall count i s, P s -> returns (for_loop body i count s) P.
Proof.
  intros Hbody count. induction count as [|c IH]; intros i s Hs; simpl.
  - exact Hs.
  - eapply returns_bind; [apply Hbody, Hs|]. intros s' Hs'. apply IH, Hs'.
Qed.

Lemma load_Some {A} (l : list A) i v :
  l !! i = Some v -> load (St:=St) l i = Returns v.
Proof. unfold load. intros ->. reflexivity. Qed.

Lemma store_lt {A} (l : list A) i v :
  i < length l -> store (St:=St) l i v = Returns (<[i:=v]> l).
Proof. unfold store. intros. case_decide; [reflexivity|lia]. Qed.

Lemma bind_Returns {A B} (a : A) (k : A -> outcome St B) :
  Returns a ≫= k = k a.
Proof. reflexivity. Qed.

Lemma mret_Returns {A} (a : A) : mret a = Returns (St:=St) a.
Proof. reflexivity. Qed.

Lemma for_loop_S {X} (body : nat -> X -> outcome St X) i c s :
  for_loop body i (S c) s = body i s ≫= for_loop body (S i) c.
Proof. reflexivity. Qed.
End OutcomeFacts.

(** ** Writing an array one element at a time *)

Lemma take_S_insert {A} (l : list A) i x :
  i < length l -> take (S i) (<[i:=x]> l) = take i l ++ [x].
Proof.
  intros Hi. rewrite (take_S_r _ _ x) by (apply list_lookup_insert_eq, Hi).
  rewrite take_insert_ge by lia. reflexivity.
Qed.

Lemma drop_after_insert {A} (l : list A) i n x :
  i < n -> drop n (<[i:=x]> l) = drop n l.
Proof. apply drop_insert_lt. Qed.

(** ** The configurators *)

Section ConfiguratorFacts.
Context {F D RNG NCO FIRFILT : Type}.
Context {float_ops : FloatOps F D} {randn : Randn F RNG}.
Context {oscillator : Oscillator F NCO} {filter : Filter F FIRFILT}.
Context {template : Template F}.

Local Abbreviation TC := (complex F).
Local Abbreviation chan := (channel F NCO FIRFILT).
Local Abbreviation proc := (process RNG).

Implicit Types (q : chan) (p : proc).

(** C2.  For all float arguments, [add_awgn] turns the noise stage on,
    records both arguments, and sets [nstd] to [powf(10, noise_floor_dB/20)]
    and [gamma] to [powf(10, (SNRdB + noise_floor_dB)/20)].  Nothing of
    an earlier noise configuration is left: a second call gives the
    channel that this call alone gives. *)
Theorem add_awgn_parameters q (nf snr : F) :
  enabled_awgn (add_awgn q nf snr) = 1%Z /\
  nstd (add_awgn q nf snr) = powf f_ten (fdiv nf f_twenty) /\
  gamma (add_awgn q nf snr) = powf f_ten (fdiv (fadd snr nf) f_twenty) /\
  noise_floor_dB (add_awgn q nf snr) = nf /\
  SNRdB (add_awgn q nf snr) = snr /\
  (forall nf0 snr0 : F,
     add_awgn (add_awgn q nf0 snr0) nf snr = add_awgn q nf snr) /\
  (forall q0 : chan,
     noise_members (add_awgn q0 nf snr) = noise_members (add_awgn q nf snr)).
Proof. repeat split. Qed.

(** C5.  Whatever the channel, [add_multipath] with length zero returns
    with the channel as it was (so with the same flag, coefficients,
    length and filter); its one effect is the warning on stderr. *)
Theorem add_multipath_zero_length_ignored q p (_h : option (list TC)) :
  add_multipath q p _h 0 = Returns (q, fprintf_stderr p warning_zero).
Proof. reflexivity. Qed.

(** C4.  With a length above 1000, [add_multipath] ends in [exit(1)];
    at that point the channel is the one it was called with (no filter
    built, no coefficient stored, none cut short) and the process has
    one more line on stderr. *)
Theorem add_multipath_over_length_exits q p (_h : option (list TC)) (_h_len : N) :
  (1000 < _h_len)%N ->
  add_multipath q p _h _h_len = Exits 1%Z (q, fprintf_stderr p warning_maximum).
Proof.
  intros Hlen. unfold add_multipath.
  destruct (N.eqb_spec _h_len 0) as [->|_]; [exfalso; lia|].
  destruct (N.ltb_spec 1000 _h_len); [reflexivity|exfalso; lia].
Qed.

Lemma add_awgn_frame q (nf snr : F) :
  carrier_members (add_awgn q nf snr) = carrier_members q /\
  multipath_members (add_awgn q nf snr) = multipath_members q.
Proof. split; reflexivity. Qed.

Lemma add_carrier_offset_frame q (fr ph : F) :
  noise_members (add_carrier_offset q fr ph) = noise_members q /\
  multipath_members (add_carrier_offset q fr ph) = multipath_members q.
Proof. split; reflexivity. Qed.

(** What a call of [add_multipath] that returns leaves of the other two
    parts, and what it makes of its own. *)
Lemma add_multipath_returns q p (_h : option (list TC)) (_h_len : N) :
  match add_multipath q p _h _h_len with
  | Returns (q', _) =>
      noise_members q' = noise_members q /\
      carrier_members q' = carrier_members q /\
      (_h_len = 0%N -> q' = q) /\
      (_h_len <> 0%N ->
       enabled_multipath q' = 1%Z /\ h_len q' = _h_len /\
       (h_consistent q -> h_consistent q') /\
       channel_filter q' = Some (firfilt_create (h q') _h_len))
  | Exits _ (q', _) => q' = q
  | Undefined => True
  end.
Proof.
  unfold add_multipath.
  destruct (N.eqb_spec _h_len 0) as [->|Hz]; [simpl; tauto|].
  destruct (N.ltb_spec 1000 _h_len) as [|Hmax]; [reflexivity|].
  set (q1 := set_h_len _ _).
  assert (Hq1 : noise_members q1 = noise_members q /\
                carrier_members q1 = carrier_members q /\
                h_len q1 = _h_len /\ enabled_multipath q1 = 1%Z /\
                (h_consistent q -> length (h q1) = N.to_nat _h_len)).
  { subst q1. unfold h_consistent.
    destruct (N.eqb_spec (h_len (set_enabled_multipath q 1)) _h_len) as [E|E];
      simpl in *; repeat split; intros Hc.
    - rewrite Hc, E. reflexivity.
    - unfold realloc. rewrite length_app, length_take, length_replicate. lia. }
  destruct Hq1 as (Hn & Hc & Hl & Hen & Hlen). clearbody q1.
  assert (Hbody : returns
    (match _h with
     | None =>
         hs ← store (St:=chan * proc) (h q1) 0 (c_of_real f_zero f_one);
         for_loop random_tap_step 1 (N.to_nat (h_len q1) - 1) (hs, rand p)
     | Some src =>
         hs ← memmove (h q1) src (N.to_nat (h_len q1)); mret (hs, rand p)
     end)
    (fun r => length (fst r) = length (h q1))).
  { destruct _h as [src|].
    - eapply returns_bind; [apply returns_memmove|].
      intros hs (-> & Hs & Hd). simpl.
      rewrite length_app, length_take, length_drop. lia.
    - eapply returns_bind; [apply returns_store|].
      intros hs (-> & Hs).
      apply (returns_for_loop random_tap_step
               (fun r => length (fst r) = length (h q1))).
      + intros i [hs g] Hlen'. unfold random_tap_step. simpl.
        destruct (randnf_operands g) as [[a b] g'].
        eapply returns_bind; [apply returns_store|].
        intros hs' (-> & _). simpl. rewrite length_insert. exact Hlen'.
      + simpl. apply length_insert. }
  destruct (match _h with None => _ | Some _ => _ end) as [[hs g]| |];
    simpl in *; [|contradiction|exact I].
  split; [exact Hn|]. split; [exact Hc|]. split; [intros; contradiction|].
  intros _. split; [exact Hen|]. split; [exact Hl|].
  split; [|rewrite Hl; reflexivity].
  unfold h_consistent. simpl. intros Hq. rewrite Hbody, Hl. apply Hlen, Hq.
Qed.

Lemma random_tap_step_eq i (hs : list TC) (g g1 : RNG) (a b : F) :
  i < length hs -> randnf_operands g = (a, b, g1) ->
  random_tap_step (NCO:=NCO) (FIRFILT:=FIRFILT) i (hs, g) =
  Returns (<[i:=random_tap a b]> hs, g1).
Proof.
  intros Hi Hg. unfold random_tap_step. cbn [fst snd]. rewrite Hg.
  rewrite store_lt by exact Hi. reflexivity.
Qed.

(** The loop of [add_multipath] writes [random_taps] over the elements
    from [i] on. *)
Lemma for_loop_random_taps n : forall i (hs : list TC) (g : RNG),
  i + n <= length hs ->
  for_loop (St:=chan * proc) random_tap_step i n (hs, g) =
  Returns (take i hs ++ fst (random_taps n g) ++ drop (i + n) hs,
           snd (random_taps n g)).
Proof.
  induction n as [|n IH]; intros i hs g Hlen.
  - simpl. rewrite Nat.add_0_r, take_drop. reflexivity.
  - rewrite for_loop_S. cbn [random_taps].
    destruct (randnf_operands g) as [[a b] g1] eqn:Hg.
    rewrite (@random_tap_step_eq i hs g g1 a b ltac:(lia) Hg), bind_Returns.
    rewrite IH by (rewrite length_insert; lia).
    destruct (random_taps n g1) as [ts g2]. cbn [fst snd].
    rewrite take_S_insert by lia.
    rewrite drop_after_insert by lia.
    rewrite <- app_assoc. simpl.
    replace (S (i + n)) with (i + S n) by lia. reflexivity.
Qed.

(** With no coefficients given and a length from 1 to 1000, the
    coefficients [add_multipath] stores are [1.0f], then one
    [random_tap] for each later index, drawn in index order. *)
Lemma add_multipath_random q p (_h_len : N) :
  (_h_len <> 0)%N -> (_h_len <= 1000)%N -> h_consistent q ->
  exists q',
    add_multipath q p None _h_len =
      Returns (q', set_rand p (snd (random_taps (N.to_nat _h_len - 1) (rand p)))) /\
    h q' = c_of_real f_zero f_one ::
           fst (random_taps (N.to_nat _h_len - 1) (rand p)).
Proof.
  intros Hz Hmax Hq. unfold add_multipath.
  destruct (N.eqb_spec _h_len 0) as [|_]; [contradiction|].
  destruct (N.ltb_spec 1000 _h_len) as [|_]; [exfalso; lia|].
  set (q1 := set_h_len _ _).
  assert (Hq1 : h_len q1 = _h_len /\ length (h q1) = N.to_nat _h_len).
  { subst q1. unfold h_consistent in Hq.
    destruct (N.eqb_spec (h_len (set_enabled_multipath q 1)) _h_len) as [E|E];
      simpl in *; split; try reflexivity.
    - rewrite Hq, E. reflexivity.
    - unfold realloc. rewrite length_app, length_take, length_replicate. lia. }
  destruct Hq1 as (Hl & Hlen). clearbody q1.
  rewrite store_lt by lia. rewrite bind_Returns.
  rewrite for_loop_random_taps by (rewrite length_insert, Hl; lia).
  rewrite bind_Returns, mret_Returns. eexists. split; [rewrite Hl; reflexivity|]. simpl.
  rewrite take_S_insert by lia. rewrite take_0.
  rewrite drop_ge by (rewrite length_insert; lia).
  rewrite app_nil_r. reflexivity.
Qed.

(** Every such tap has the zero of [_Complex_I] as a factor of its real
    part: no draw reaches the real part on its own. *)
Lemma random_tap_parts (a b : F) :
  re (random_tap a b) = fmul f_005 (fmul (fmul a f_zero) b) /\
  im (random_tap a b) = fmul f_005 (fmul (fmul a f_one) b).
Proof. split; reflexivity. Qed.

(** C10.  Each configurator leaves the members of the other two parts
    as they were: [add_awgn] the carrier members (flag, frequency, phase,
    oscillator) and the multipath members (flag, filter, coefficients,
    length); [add_carrier_offset] the noise and the multipath members;
    a call of [add_multipath] that returns the noise and the carrier
    members. *)
Theorem configurators_frame q p (nf snr fr ph : F)
    (_h : option (list TC)) (_h_len : N) q' p' :
  add_multipath q p _h _h_len = Returns (q', p') ->
  (carrier_members (add_awgn q nf snr) = carrier_members q /\
   multipath_members (add_awgn q nf snr) = multipath_members q) /\
  (noise_members (add_carrier_offset q fr ph) = noise_members q /\
   multipath_members (add_carrier_offset q fr ph) = multipath_members q) /\
  (noise_members q' = noise_members q /\
   carrier_members q' = carrier_members q).
Proof.
  intros Hret. split; [apply add_awgn_frame|].
  split; [apply add_carrier_offset_frame|].
  pose proof (add_multipath_returns q p _h _h_len) as H.
  rewrite Hret in H. tauto.
Qed.

End ConfiguratorFacts.

(** ** The sample loop *)

(** Running the straight-line part of a body: reads of elements known to
    be there, writes inside the array, and the binds between them. *)
Ltac run_memory :=
  repeat first
    [ rewrite bind_Returns
    | rewrite mret_Returns
    | erewrite load_Some
        by first [ eassumption
                 | apply list_lookup_insert_eq; rewrite ?length_insert; lia ]
    | rewrite store_lt by (rewrite ?length_insert; lia)
    | rewrite list_insert_insert_eq ].

(** Reading a member of a channel just assigned to. *)
Ltac channel_members :=
  cbn [enabled_awgn gamma nstd noise_floor_dB SNRdB enabled_carrier dphi phi
       nco enabled_multipath channel_filter h h_len
       set_awgn set_carrier set_nco set_enabled_multipath set_channel_filter
       set_h set_h_len rand set_rand fst snd].

Section ExecuteFacts.
Context {F D RNG NCO FIRFILT : Type}.
Context {float_ops : FloatOps F D} {randn : Randn F RNG}.
Context {oscillator : Oscillator F NCO} {filter : Filter F FIRFILT}.
Context {template : Template F}.

Local Abbreviation TC := (complex F).
Local Abbreviation chan := (channel F NCO FIRFILT).
Local Abbreviation proc := (process RNG).

Implicit Types (q : chan) (p : proc) (v : TC).

(** The three flags of a channel. *)
Local Abbreviation flags q := (enabled_awgn q, enabled_carrier q, enabled_multipath q).

Lemma stage_multipath_off q v :
  nonzero (enabled_multipath q) = false -> stage_multipath q v = (q, v).
Proof. unfold stage_multipath. intros ->. reflexivity. Qed.

Lemma stage_carrier_off q v :
  nonzero (enabled_carrier q) = false -> stage_carrier q v = (q, v).
Proof. unfold stage_carrier. intros ->. reflexivity. Qed.

Lemma stage_noise_off q p v :
  nonzero (enabled_awgn q) = false -> stage_noise q p v = (p, v).
Proof. unfold stage_noise. intros ->. reflexivity. Qed.

(** One sample changes neither a flag, nor the noise parameters, nor the
    coefficients; a filter that is there stays there. *)
Lemma pipeline_sample_keeps q p v :
  let q' := fst (fst (pipeline_sample q p v)) in
  flags q' = flags q /\
  noise_members q' = noise_members q /\
  (h q', h_len q') = (h q, h_len q) /\
  (is_Some (channel_filter q) -> is_Some (channel_filter q')) /\
  (channel_filter q = None -> channel_filter q' = None).
Proof.
  unfold pipeline_sample, stage_multipath, stage_carrier, stage_noise.
  destruct (nonzero (enabled_multipath q)) eqn:Em;
    [destruct (channel_filter q) as [f|] eqn:Ef;
       [destruct (firfilt_execute (firfilt_push f v)) as [w f']|]|];
    cbn [fst snd];
    repeat match goal with
    | |- context [nonzero ?e] => destruct (nonzero e)
    | |- context [nco_mix_up ?n ?x] => destruct (nco_mix_up n x)
    | |- context [randnf_operands ?g] => destruct (randnf_operands g) as [[? ?] ?]
    end; cbn; rewrite ?Ef; intuition (eauto; congruence).
Qed.

Lemma pipeline_sample_filter_ready q p v :
  filter_ready q -> filter_ready (fst (fst (pipeline_sample q p v))).
Proof.
  intros Hq. destruct (pipeline_sample_keeps q p v) as (Hf & _ & _ & Hs & _).
  unfold filter_ready in *. injection Hf as _ _ ->. auto.
Qed.

(** The body of the loop at index [i] is one step of the pipeline on
    [_x[i]], written to [_y[i]]. *)
Lemma execute_sample_pipeline (_x _y : list TC) i q p v :
  _x !! i = Some v -> i < length _y -> filter_ready q ->
  execute_sample _x i (q, p, _y) =
  Returns (fst (fst (pipeline_sample q p v)),
           snd (fst (pipeline_sample q p v)),
           <[i:=snd (pipeline_sample q p v)]> _y).
Proof.
  intros Hx Hy Hq. unfold filter_ready in Hq.
  unfold execute_sample, pipeline_sample, stage_multipath, stage_carrier,
    stage_noise, add_assign_double, noise_term.
  destruct (nonzero (enabled_multipath q)) eqn:Em;
    [destruct (Hq eq_refl) as [f Ef]; rewrite Ef|];
    repeat (run_memory; channel_members;
            try match goal with
            | |- context [nonzero ?e] => destruct (nonzero e)
            | |- context [nco_mix_up ?n ?x] => destruct (nco_mix_up n x)
            | |- context [firfilt_execute ?f] => destruct (firfilt_execute f)
            | |- context [randnf_operands ?g] =>
                destruct (randnf_operands g) as [[? ?] ?]
            end);
    reflexivity.
Qed.

Lemma pipeline_cons q p v (xs : list TC) :
  pipeline q p (v :: xs) =
  let s := pipeline_sample q p v in
  let r := pipeline (fst (fst s)) (snd (fst s)) xs in
  (fst (fst r), snd (fst r), snd s :: snd r).
Proof.
  simpl. destruct (pipeline_sample q p v) as [[q1 p1] w]. simpl.
  destruct (pipeline q1 p1 xs) as [[q2 p2] ws]. reflexivity.
Qed.

Lemma pipeline_app (xs ys : list TC) : forall q p,
  pipeline q p (xs ++ ys) =
  let r1 := pipeline q p xs in
  let r2 := pipeline (fst (fst r1)) (snd (fst r1)) ys in
  (fst (fst r2), snd (fst r2), snd r1 ++ snd r2).
Proof.
  induction xs as [|v xs IH]; intros q p.
  - simpl. destruct (pipeline q p ys) as [[q2 p2] ws]. reflexivity.
  - rewrite <- app_comm_cons, !pipeline_cons. cbn zeta. rewrite IH. reflexivity.
Qed.

Lemma pipeline_length (xs : list TC) : forall q p,
  length (snd (pipeline q p xs)) = length xs.
Proof.
  induction xs as [|v xs IH]; intros q p; [reflexivity|].
  rewrite pipeline_cons. simpl. rewrite IH. reflexivity.
Qed.

Lemma pipeline_filter_ready (xs : list TC) : forall q p,
  filter_ready q -> filter_ready (fst (fst (pipeline q p xs))).
Proof.
  induction xs as [|v xs IH]; intros q p Hq; [exact Hq|].
  rewrite pipeline_cons. simpl. apply IH, pipeline_sample_filter_ready, Hq.
Qed.

(** With every stage off the pipeline is the identity. *)
Lemma pipeline_all_off (xs : list TC) q p :
  nonzero (enabled_multipath q) = false ->
  nonzero (enabled_carrier q) = false ->
  nonzero (enabled_awgn q) = false ->
  pipeline q p xs = (q, p, xs).
Proof.
  intros Hm Hc Ha. induction xs as [|v xs IH]; [reflexivity|].
  rewrite pipeline_cons. unfold pipeline_sample.
  rewrite stage_multipath_off, stage_carrier_off, stage_noise_off by assumption.
  simpl. rewrite IH. reflexivity.
Qed.

(** The loop from index [i], for [n] turns: the pipeline over the [n]
    samples from [_x[i]] on, written over [_y[i]] to [_y[i+n-1]]. *)
Lemma for_loop_execute_sample (_x : list TC) n : forall i q p (_y : list TC),
  i + n <= length _x -> i + n <= length _y -> filter_ready q ->
  for_loop (St:=chan * proc) (execute_sample _x) i n (q, p, _y) =
  let r := pipeline q p (take n (drop i _x)) in
  Returns (fst (fst r), snd (fst r), take i _y ++ snd r ++ drop (i + n) _y).
Proof.
  induction n as [|n IH]; intros i q p _y Hx Hy Hq.
  - simpl. rewrite Nat.add_0_r, take_drop. reflexivity.
  - destruct (lookup_lt_is_Some_2 _x i ltac:(lia)) as [v Hv].
    rewrite for_loop_S.
    rewrite (@execute_sample_pipeline _x _y i q p v Hv ltac:(lia) Hq).
    rewrite bind_Returns, IH
      by (rewrite ?length_insert; try lia;
          apply pipeline_sample_filter_ready, Hq).
    rewrite (drop_S _ _ _ Hv). cbn [take]. rewrite pipeline_cons. cbn zeta.
    cbn [fst snd]. rewrite take_S_insert by lia.
    rewrite drop_after_insert by lia. rewrite <- app_assoc. simpl.
    replace (S (i + n)) with (i + S n) by lia. reflexivity.
Qed.

(** What [execute] returns, in terms of the pipeline. *)
Lemma execute_returns q p (_x _y : list TC) (_nx : N) :
  N.to_nat _nx <= length _x -> N.to_nat _nx <= length _y -> filter_ready q ->
  execute q p _x _nx _y =
  let r := pipeline q p (take (N.to_nat _nx) _x) in
  Returns (fst (fst r), snd (fst r), snd r ++ drop (N.to_nat _nx) _y, _nx).
Proof.
  intros Hx Hy Hq. unfold execute.
  rewrite for_loop_execute_sample by (simpl; lia || exact Hq).
  rewrite drop_0, take_0. reflexivity.
Qed.

(** C1.  On a consistent channel and arrays with room for [_nx] samples,
    [execute] returns: it leaves in [_y[0..]] the outputs of the pipeline
    (multipath, then carrier, then noise, each the identity when off) run
    over [_x[0]], [_x[1]], ... in that order, one output for each input;
    the output at index [i] is the pipeline step on [_x[i]] in the state
    the earlier samples left; and [*_ny] is [_nx]. *)
Theorem execute_pipeline q p (_x _y : list TC) (_nx : N) :
  N.to_nat _nx <= length _x -> N.to_nat _nx <= length _y -> filter_ready q ->
  let r := pipeline q p (take (N.to_nat _nx) _x) in
  execute q p _x _nx _y =
    Returns (fst (fst r), snd (fst r), snd r ++ drop (N.to_nat _nx) _y, _nx) /\
  length (snd r) = N.to_nat _nx /\
  (forall i v, i < N.to_nat _nx -> _x !! i = Some v ->
     let before := pipeline q p (take i _x) in
     snd r !! i =
       Some (snd (pipeline_sample (fst (fst before)) (snd (fst before)) v))) /\
  (forall q0 p0 v,
     pipeline_sample q0 p0 v =
       (let '(q1, v1) := stage_multipath q0 v in
        let '(q2, v2) := stage_carrier q1 v1 in
        let '(p3, v3) := stage_noise q2 p0 v2 in (q2, p3, v3)) /\
     (nonzero (enabled_multipath q0) = false -> stage_multipath q0 v = (q0, v)) /\
     (nonzero (enabled_carrier q0) = false -> stage_carrier q0 v = (q0, v)) /\
     (nonzero (enabled_awgn q0) = false -> stage_noise q0 p0 v = (p0, v))).
Proof.
  intros Hx Hy Hq r. split; [apply execute_returns; assumption|].
  split; [subst r; rewrite pipeline_length, length_take; lia|].
  split.
  - intros i v Hi Hv before. subst r before.
    rewrite <- (take_drop i (take (N.to_nat _nx) _x)).
    rewrite take_take, Nat.min_l by lia.
    rewrite pipeline_app. cbn zeta. cbn [snd].
    rewrite lookup_app_r by (rewrite pipeline_length, length_take; lia).
    rewrite pipeline_length, length_take, Nat.min_l by lia.
    rewrite Nat.sub_diag.
    assert (Hd : drop i (take (N.to_nat _nx) _x) !! 0 = Some v).
    { rewrite lookup_drop, Nat.add_0_r, lookup_take_lt by lia. exact Hv. }
    destruct (drop i (take (N.to_nat _nx) _x)) as [|v' rest]; [discriminate|].
    injection Hd as ->. rewrite pipeline_cons. reflexivity.
  - intros q0 p0 v. split; [reflexivity|].
    split; [apply stage_multipath_off|].
    split; [apply stage_carrier_off|apply stage_noise_off].
Qed.

(** C7.  On the channel [create] returns, [execute] copies the [_nx]
    input samples to the output unchanged, sets [*_ny] to [_nx], and
    leaves channel and generator as they were. *)
Theorem execute_fresh_identity (fresh : chan) (_h : option (list TC)) (_n : N)
    p (_x _y : list TC) (_nx : N) :
  N.to_nat _nx <= length _x -> N.to_nat _nx <= length _y ->
  execute (create fresh _h _n) p _x _nx _y =
  Returns (create fresh _h _n, p,
           take (N.to_nat _nx) _x ++ drop (N.to_nat _nx) _y, _nx).
Proof.
  intros Hx Hy. rewrite execute_returns; try assumption.
  - rewrite pipeline_all_off by reflexivity. reflexivity.
  - intros H. discriminate H.
Qed.

(** C6.  One call over [n] samples, and a call over the first [k]
    followed by a call over the other [n - k] on the channel and the
    generator the first call left: all three return, the two short calls
    leave the channel and the generator the long call leaves (the
    oscillator with them), and their outputs, one after the other, are
    the output of the long call. *)
Theorem execute_split q p (_x _y y1 y2 : list TC) (k n : N) :
  (k <= n)%N ->
  N.to_nat n <= length _x -> N.to_nat n <= length _y ->
  N.to_nat k <= length y1 -> N.to_nat (n - k) <= length y2 ->
  filter_ready q ->
  exists q1 p1 o1 q2 p2 o2,
    execute q p _x k y1 = Returns (q1, p1, o1, k) /\
    execute q1 p1 (drop (N.to_nat k) _x) (n - k) y2 =
      Returns (q2, p2, o2, (n - k)%N) /\
    execute q p _x n _y =
      Returns (q2, p2,
               take (N.to_nat k) o1 ++ take (N.to_nat (n - k)) o2 ++
               drop (N.to_nat n) _y, n).
Proof.
  intros Hk Hx Hy Hy1 Hy2 Hq.
  set (r1 := pipeline q p (take (N.to_nat k) _x)).
  set (r2 := pipeline (fst (fst r1)) (snd (fst r1))
               (take (N.to_nat (n - k)) (drop (N.to_nat k) _x))).
  exists (fst (fst r1)), (snd (fst r1)), (snd r1 ++ drop (N.to_nat k) y1).
  exists (fst (fst r2)), (snd (fst r2)), (snd r2 ++ drop (N.to_nat (n - k)) y2).
  split; [apply execute_returns; try assumption; lia|].
  split.
  { apply execute_returns; try assumption.
    - rewrite length_drop. lia.
    - apply pipeline_filter_ready, Hq. }
  rewrite execute_returns by assumption. cbn zeta.
  assert (Hsplit : take (N.to_nat n) _x =
                   take (N.to_nat k) _x ++
                   take (N.to_nat (n - k)) (drop (N.to_nat k) _x)).
  { rewrite take_drop_commute.
    replace (N.to_nat k + N.to_nat (n - k)) with (N.to_nat n) by lia.
    rewrite <- (take_drop (N.to_nat k) (take (N.to_nat n) _x)) at 1.
    rewrite take_take, Nat.min_l by lia. reflexivity. }
  rewrite Hsplit, pipeline_app. cbn zeta. fold r1. fold r2.
  rewrite !take_app_length'
    by (subst r1 r2; rewrite pipeline_length, length_take, ?length_drop; lia).
  cbn [fst snd]. rewrite <- app_assoc. reflexivity.
Qed.

End ExecuteFacts.

(** ** Sequences of operations *)

Section LifeFacts.
Context {F D RNG NCO FIRFILT : Type}.
Context {float_ops : FloatOps F D} {randn : Randn F RNG}.
Context {oscillator : Oscillator F NCO} {filter : Filter F FIRFILT}.
Context {template : Template F}.

Local Abbreviation TC := (complex F).
Local Abbreviation chan := (channel F NCO FIRFILT).
Local Abbreviation proc := (process RNG).
Local Abbreviation flags q := (enabled_awgn q, enabled_carrier q, enabled_multipath q).

Implicit Types (q : chan) (p : proc).

Lemma stays_enabled_refl q : stays_enabled q q.
Proof. unfold stays_enabled. tauto. Qed.

Lemma stays_enabled_trans q1 q2 q3 :
  stays_enabled q1 q2 -> stays_enabled q2 q3 -> stays_enabled q1 q3.
Proof. unfold stays_enabled. tauto. Qed.

Lemma stays_enabled_flags q q' : flags q' = flags q -> stays_enabled q q'.
Proof. unfold stays_enabled. intros [= Ha Hc Hm]. rewrite Ha, Hc, Hm. tauto. Qed.

(** What the sample loop keeps of a channel. *)
Local Abbreviation kept q q' :=
  (flags q' = flags q /\ (h q', h_len q') = (h q, h_len q) /\
   (is_Some (channel_filter q) -> is_Some (channel_filter q'))).

(** The loop body keeps the three flags, the coefficients and the
    presence of a filter, whether or not its accesses are defined. *)
Lemma execute_sample_kept (_x : list TC) i q p (_y : list TC) :
  returns (execute_sample _x i (q, p, _y)) (fun s => kept q (fst (fst s))).
Proof.
  unfold execute_sample, load, store.
  repeat (case_match; simplify_eq/=; try done); eauto.
Qed.

Lemma execute_kept q p (_x _y : list TC) (_nx : N) :
  returns (execute q p _x _nx _y) (fun r => kept q (fst (fst (fst r)))).
Proof.
  unfold execute. eapply returns_bind.
  - apply (returns_for_loop (execute_sample _x)
             (fun s => kept q (fst (fst s)))); [|cbn [fst]; tauto].
    intros i [[q1 p1] y1] Hs. eapply returns_weaken.
    + apply execute_sample_kept.
    + intros s Hs'. cbn [fst] in *.
      destruct Hs as (H1 & H2 & H3), Hs' as (H1' & H2' & H3').
      split; [congruence|]. split; [congruence|]. auto.
  - intros [[q1 p1] y1] Hs. exact Hs.
Qed.

Lemma execute_flags q p (_x _y : list TC) (_nx : N) :
  returns (execute q p _x _nx _y)
          (fun r => flags (fst (fst (fst r))) = flags q).
Proof.
  eapply returns_weaken; [apply execute_kept|]. intros r (Hf & _). exact Hf.
Qed.

(** One operation turns no stage off. *)
Lemma apply_operation_stays_enabled (o : operation) (s : chan * proc) :
  match apply_operation o s with
  | Returns s' => stays_enabled (fst s) (fst s')
  | Exits _ s' => stays_enabled (fst s) (fst s')
  | Undefined => True
  end.
Proof.
  destruct s as [q p]. destruct o as [nf snr|fr ph|_h _h_len|_x _nx _y|]; simpl.
  - unfold stays_enabled. simpl. tauto.
  - unfold stays_enabled. simpl. tauto.
  - pose proof (add_multipath_returns q p _h _h_len) as H.
    destruct (add_multipath q p _h _h_len) as [[q' p']|st [q' p']|]; simpl.
    + destruct H as (Hn & Hc & Hz & Hnz).
      unfold stays_enabled, noise_members, carrier_members in *.
      injection Hn as Hn _ _ _ _. injection Hc as Hc _ _ _.
      split; [intros; congruence|]. split; [intros; congruence|].
      destruct (N.eq_dec _h_len 0%N) as [E|E].
      * rewrite (Hz E). tauto.
      * destruct (Hnz E) as (-> & _). reflexivity.
    + subst q'. apply stays_enabled_refl.
    + exact I.
  - pose proof (execute_flags q p _x _y _nx) as H.
    destruct (execute q p _x _nx _y) as [[[[q' p'] y'] ny]|st [q' p']|]; simpl in *.
    + apply stays_enabled_flags, H.
    + contradiction.
    + exact I.
  - apply stays_enabled_refl.
Qed.

(** C9.  Whatever operations are applied to a channel, in whatever
    order, a stage that is on stays on: in the channel the sequence
    leaves (on return, or at the [exit] of an over-long [add_multipath])
    every flag that was set before is set. *)
Theorem enabled_flags_persist (ops : list operation) (s : chan * proc) q' :
  channel_left (run ops s) = Some q' -> stays_enabled (fst s) q'.
Proof.
  revert s. induction ops as [|o ops IH]; intros s Hleft.
  - injection Hleft as <-. apply stays_enabled_refl.
  - cbn [run] in Hleft.
    pose proof (apply_operation_stays_enabled o s) as Hstep.
    destruct (apply_operation o s) as [s1|st s1|]; cbn in Hleft.
    + eapply stays_enabled_trans; [exact Hstep|]. apply IH, Hleft.
    + injection Hleft as <-. exact Hstep.
    + discriminate Hleft.
Qed.

(** Each configurator turns its own stage on. *)
Lemma configurators_enable q p (a b : F) (_h : option (list TC)) (_h_len : N) :
  nonzero (enabled_awgn (add_awgn q a b)) = true /\
  nonzero (enabled_carrier (add_carrier_offset q a b)) = true /\
  (_h_len <> 0%N ->
   returns (add_multipath q p _h _h_len) (fun s => True) ->
   returns (add_multipath q p _h _h_len)
           (fun s => nonzero (enabled_multipath (fst s)) = true)).
Proof.
  split; [reflexivity|]. split; [reflexivity|]. intros Hz Hret.
  pose proof (add_multipath_returns q p _h _h_len) as H.
  destruct (add_multipath q p _h _h_len) as [[q' p']|st [q' p']|]; simpl in *;
    try tauto.
  destruct H as (_ & _ & _ & Hnz). destruct (Hnz Hz) as (-> & _). reflexivity.
Qed.

(** [create] gives a consistent channel, and every operation keeps a
    channel consistent: the channels a caller can hold are consistent. *)
Lemma create_consistent (fresh : chan) (_h : option (list TC)) (_n : N) :
  filter_ready (create fresh _h _n) /\ h_consistent (create fresh _h _n).
Proof. split; [intros H; discriminate H|reflexivity]. Qed.

Lemma apply_operation_consistent (o : operation) (s : chan * proc) :
  filter_ready (fst s) /\ h_consistent (fst s) ->
  match apply_operation o s with
  | Returns s' => filter_ready (fst s') /\ h_consistent (fst s')
  | Exits _ s' => filter_ready (fst s') /\ h_consistent (fst s')
  | Undefined => True
  end.
Proof.
  destruct s as [q p]. cbn [fst]. intros [Hf Hh].
  destruct o as [nf snr|fr ph|_h _h_len|_x _nx _y|]; simpl.
  - split; assumption.
  - split; assumption.
  - pose proof (add_multipath_returns q p _h _h_len) as H.
    destruct (add_multipath q p _h _h_len) as [[q' p']|st [q' p']|]; simpl.
    + destruct H as (_ & _ & Hz & Hnz).
      destruct (N.eq_dec _h_len 0%N) as [E|E].
      * rewrite (Hz E). split; assumption.
      * destruct (Hnz E) as (_ & _ & Hc & Hfilter). split; [|auto].
        intros _. rewrite Hfilter. eauto.
    + subst q'. split; assumption.
    + exact I.
  - pose proof (execute_kept q p _x _y _nx) as H.
    destruct (execute q p _x _nx _y) as [[[[q' p'] y'] ny]|st [q' p']|];
      simpl in *; [|contradiction|exact I].
    destruct H as (Hflags & Hhh & Hsome).
    injection Hflags as _ _ Hm. injection Hhh as Hh1 Hh2.
    unfold filter_ready, h_consistent in *. rewrite Hm, Hh1, Hh2. auto.
  - split; assumption.
Qed.

Lemma run_consistent (ops : list operation) : forall (s : chan * proc) q',
  filter_ready (fst s) /\ h_consistent (fst s) ->
  channel_left (run ops s) = Some q' ->
  filter_ready q' /\ h_consistent q'.
Proof.
  induction ops as [|o ops IH]; intros s q' Hs Hleft.
  - injection Hleft as <-. exact Hs.
  - cbn [run] in Hleft.
    pose proof (apply_operation_consistent o s Hs) as Hstep.
    destruct (apply_operation o s) as [s1|st s1|]; cbn in Hleft.
    + eapply IH; eassumption.
    + injection Hleft as <-. exact Hstep.
    + discriminate Hleft.
Qed.

End LifeFacts.

(** ** The constructor *)

(** C8 (amended).  [create] returns a channel with the three stages off,
    the oscillator as [NCO(_create)(LIQUID_VCO)] gives it, the
    coefficients [1.0] with length 1, and no filter: [channel_filter] is
    NULL until [add_multipath] builds one.  The oscillator of the
    specification is created with frequency and phase zero. *)
Theorem create_initial_state {F D NCO FIRFILT : Type}
    {float_ops : FloatOps F D} {oscillator : Oscillator F NCO}
    (fresh : channel F NCO FIRFILT) (_h : option (list (complex F))) (_n : N) :
  let q := create fresh _h _n in
  enabled_awgn q = 0%Z /\ enabled_carrier q = 0%Z /\ enabled_multipath q = 0%Z /\
  nco q = nco_create LIQUID_VCO /\
  h q = [c_of_real f_zero f_one] /\ h_len q = 1%N /\
  channel_filter q = None /\
  (forall rotate : F -> complex F -> complex F,
     let n := nco_create (Oscillator := spec_oscillator rotate) LIQUID_VCO in
     nco_frequency n = f_zero /\ nco_phase n = f_zero).
Proof. repeat split. Qed.

(** ** The functions on the bench *)

(** The channel [create] returns owns no filter, so it does not own the
    one-tap filter built from [1.0]. *)
Lemma create_builds_no_filter :
  channel_filter Bench.new_channel = None /\
  ~ (enabled_awgn Bench.new_channel = 0%Z /\
     enabled_carrier Bench.new_channel = 0%Z /\
     enabled_multipath Bench.new_channel = 0%Z /\
     nco_frequency (nco Bench.new_channel) = f_zero /\
     nco_phase (nco Bench.new_channel) = f_zero /\
     h Bench.new_channel = [c_of_real f_zero f_one] /\
     channel_filter Bench.new_channel =
       Some (firfilt_create [c_of_real f_zero f_one] 1)).
Proof.
  split; [reflexivity|]. intros (_ & _ & _ & _ & _ & _ & Hfilter).
  discriminate Hfilter.
Qed.

(** C3.  Two coefficients synthesised from the draws 2 and 3: the first
    is [1.0]; the second is [0.05f * (2 * i * 3)], with real part zero
    and imaginary part [0.05f * 6], and not [0.05f * (2 + 3i)] (nor
    [0.05f * (3 + 2i)]), the value with one draw in each part. *)
Theorem add_multipath_random_taps_on_bench :
  exists q' p',
    add_multipath Bench.new_channel
      (Bench.with_tape [Bench.b32 2 0; Bench.b32 3 0]) None 2 =
      Returns (q', p') /\
    h q' = [ Cplx (Bench.b32 1 0) (S754_zero false);
             Cplx (S754_zero false) (fmul f_005 (Bench.b32 6 0)) ] /\
    h q' !! 1 <>
      Some (rc_mul fmul f_005
              (rc_add fadd (Bench.b32 2 0)
                 (cr_mul fmul (Complex_I f_zero f_one) (Bench.b32 3 0)))) /\
    h q' !! 1 <>
      Some (rc_mul fmul f_005
              (rc_add fadd (Bench.b32 3 0)
                 (cr_mul fmul (Complex_I f_zero f_one) (Bench.b32 2 0)))).
Proof.
  eexists _, _. split; [vm_compute; reflexivity|].
  split; [vm_compute; reflexivity|].
  split; vm_compute; intros H; discriminate H.
Qed.

Lemma execute_pipeline_witness :
  N.to_nat 3 <= length Bench.samples /\
  N.to_nat 3 <= length (Bench.blank 4) /\
  filter_ready (fst Bench.configured) /\
  execute (fst Bench.configured) (snd Bench.configured)
          Bench.samples 3 (Bench.blank 4) =
  (let r := pipeline (fst Bench.configured) (snd Bench.configured)
              (take (N.to_nat 3) Bench.samples) in
   Returns (fst (fst r), snd (fst r),
            snd r ++ drop (N.to_nat 3) (Bench.blank 4), 3%N)).
Proof.
  assert (H1 : N.to_nat 3 <= length Bench.samples) by (vm_compute; lia).
  assert (H2 : N.to_nat 3 <= length (Bench.blank 4)) by (vm_compute; lia).
  assert (H3 : filter_ready (fst Bench.configured))
    by (intros _; vm_compute; eexists; reflexivity).
  split; [exact H1|]. split; [exact H2|]. split; [exact H3|].
  exact (proj1 (execute_pipeline (snd Bench.configured)
                  Bench.samples (Bench.blank 4) 3 H1 H2 H3)).
Defined.

Lemma add_multipath_over_length_exits_witness :
  (1000 < 1001)%N /\
  add_multipath Bench.new_channel Bench.quiet (Some Bench.samples) 1001 =
  Exits 1%Z (Bench.new_channel, fprintf_stderr Bench.quiet warning_maximum).
Proof.
  split; [reflexivity|].
  apply (add_multipath_over_length_exits Bench.new_channel Bench.quiet
           (Some Bench.samples)). reflexivity.
Defined.

Lemma execute_split_witness :
  (1 <= 3)%N /\ filter_ready (fst Bench.configured) /\
  exists q1 p1 o1 q2 p2 o2,
    execute (fst Bench.configured) (snd Bench.configured)
            Bench.samples 1 (Bench.blank 1) = Returns (q1, p1, o1, 1%N) /\
    execute q1 p1 (drop (N.to_nat 1) Bench.samples) (3 - 1) (Bench.blank 2) =
      Returns (q2, p2, o2, (3 - 1)%N) /\
    execute (fst Bench.configured) (snd Bench.configured)
            Bench.samples 3 (Bench.blank 3) =
      Returns (q2, p2,
               take (N.to_nat 1) o1 ++ take (N.to_nat (3 - 1)) o2 ++
               drop (N.to_nat 3) (Bench.blank 3), 3%N).
Proof.
  assert (H : filter_ready (fst Bench.configured))
    by (intros _; vm_compute; eexists; reflexivity).
  split; [discriminate|]. split; [exact H|].
  apply (execute_split (snd Bench.configured) Bench.samples (Bench.blank 3)
           (Bench.blank 1) (Bench.blank 2) (k:=1) (n:=3));
    try exact H; try discriminate; vm_compute; lia.
Defined.

Lemma execute_fresh_identity_witness :
  N.to_nat 3 <= length Bench.samples /\
  N.to_nat 3 <= length (Bench.blank 4) /\
  execute Bench.new_channel (Bench.with_tape Bench.tape)
          Bench.samples 3 (Bench.blank 4) =
  Returns (Bench.new_channel, Bench.with_tape Bench.tape,
           take (N.to_nat 3) Bench.samples ++ drop (N.to_nat 3) (Bench.blank 4),
           3%N).
Proof.
  assert (H1 : N.to_nat 3 <= length Bench.samples) by (vm_compute; lia).
  assert (H2 : N.to_nat 3 <= length (Bench.blank 4)) by (vm_compute; lia).
  split; [exact H1|]. split; [exact H2|].
  exact (execute_fresh_identity Bench.raw_block None 0
           (Bench.with_tape Bench.tape) Bench.samples (Bench.blank 4) 3 H1 H2).
Defined.

Lemma enabled_flags_persist_witness :
  channel_left (run Bench.life Bench.configured) = Some Bench.life_end /\
  stays_enabled (fst Bench.configured) Bench.life_end.
Proof.
  assert (H : channel_left (run Bench.life Bench.configured) =
              Some Bench.life_end) by (vm_compute; reflexivity).
  split; [exact H|].
  exact (enabled_flags_persist Bench.life Bench.configured H).
Defined.

Lemma configurators_frame_witness :
  add_multipath (fst Bench.configured) (snd Bench.configured)
                (Some Bench.samples) 3 =
    Returns (fst Bench.three_taps, snd Bench.three_taps) /\
  noise_members (fst Bench.three_taps) = noise_members (fst Bench.configured) /\
  carrier_members (fst Bench.three_taps) =
    carrier_members (fst Bench.configured).
Proof.
  assert (H : add_multipath (fst Bench.configured) (snd Bench.configured)
                (Some Bench.samples) 3 =
              Returns (fst Bench.three_taps, snd Bench.three_taps))
    by (vm_compute; reflexivity).
  split; [exact H|].
  exact (proj2 (proj2 (configurators_frame
                         (fst Bench.configured) (snd Bench.configured)
                         (S754_zero false) (S754_zero false)
                         (S754_zero false) (S754_zero false)
                         (Some Bench.samples) 3 H))).
Defined.

(** * Further properties of channel.c *)

(** ** More on [add_multipath] *)

Section MultipathFacts.
Context {F D RNG NCO FIRFILT : Type}.
Context {float_ops : FloatOps F D} {randn : Randn F RNG}.
Context {oscillator : Oscillator F NCO} {filter : Filter F FIRFILT}.
Context {template : Template F}.

Local Abbreviation TC := (complex F).
Local Abbreviation chan := (channel F NCO FIRFILT).
Local Abbreviation proc := (process RNG).

Implicit Types (q : chan) (p : proc).

Lemma memmove_fits {St A} (dst src : list A) n :
  n <= length src -> n <= length dst ->
  memmove (St:=St) dst src n = Returns (take n src ++ drop n dst).
Proof. intros. unfold memmove. case_decide; [reflexivity|tauto]. Qed.

Lemma set_rand_same p : set_rand p (rand p) = p.
Proof. destruct p. reflexivity. Qed.

(** Two draws are taken for each pair of operands, in either order of
    evaluation. *)
Lemma randnf_operands_generator (g : RNG) :
  snd (randnf_operands g) = skip_draws 2 g.
Proof.
  unfold randnf_operands, skip_draws. simpl.
  destruct (randnf g) as [d1 g1]. simpl.
  destruct (randnf g1) as [d2 g2]. destruct lhs_first; reflexivity.
Qed.

Lemma skip_draws_add a b (g : RNG) :
  skip_draws (a + b) g = skip_draws a (skip_draws b g).
Proof. unfold skip_draws. apply Nat.iter_add. Qed.

Lemma random_taps_shape n : forall g : RNG,
  length (fst (random_taps n g)) = n /\
  snd (random_taps n g) = skip_draws (2 * n) g.
Proof.
  induction n as [|n IH]; intros g; [split; reflexivity|].
  cbn [random_taps].
  pose proof (randnf_operands_generator g) as Hg.
  destruct (randnf_operands g) as [[a b] g1]. cbn [snd] in Hg. subst g1.
  destruct (IH (skip_draws 2 g)) as [Hlen Hgen].
  destruct (random_taps n (skip_draws 2 g)) as [ts g2]. cbn [fst snd] in *.
  split; [simpl; rewrite Hlen; reflexivity|].
  rewrite Hgen, <- skip_draws_add. f_equal. lia.
Qed.

(** X1.  Given coefficients and a length from 1 to 1000, on a consistent
    channel and with at least that many coefficients to read,
    [add_multipath] returns: the channel has the stage on, the first
    [_h_len] coefficients copied as they are, that length, and a filter
    created from them; every other member, the generator and the
    streams are as before. *)
Theorem add_multipath_copies q p (src : list TC) (_h_len : N) :
  (_h_len <> 0)%N -> (_h_len <= 1000)%N -> h_consistent q ->
  N.to_nat _h_len <= length src ->
  add_multipath q p (Some src) _h_len =
  Returns
    ({| enabled_awgn := enabled_awgn q; gamma := gamma q; nstd := nstd q;
        noise_floor_dB := noise_floor_dB q; SNRdB := SNRdB q;
        enabled_carrier := enabled_carrier q; dphi := dphi q; phi := phi q;
        nco := nco q;
        enabled_multipath := 1;
        channel_filter :=
          Some (firfilt_create (take (N.to_nat _h_len) src) _h_len);
        h := take (N.to_nat _h_len) src;
        h_len := _h_len |}, p).
Proof.
  intros Hz Hmax Hq Hsrc. unfold add_multipath, h_consistent in *.
  destruct (N.eqb_spec _h_len 0) as [|_]; [contradiction|].
  destruct (N.ltb_spec 1000 _h_len) as [|_]; [exfalso; lia|].
  destruct (N.eqb_spec (h_len (set_enabled_multipath q 1)) _h_len) as [E|E];
    cbn [negb]; channel_members.
  - cbn in E. rewrite memmove_fits by lia.
    rewrite bind_Returns, mret_Returns, bind_Returns. channel_members.
    rewrite drop_ge, app_nil_r by lia.
    rewrite set_rand_same. reflexivity.
  - assert (Hlen : length (realloc realloc_junk (h q) (N.to_nat _h_len)) =
                   N.to_nat _h_len).
    { unfold realloc. rewrite length_app, length_take, length_replicate. lia. }
    rewrite memmove_fits by lia.
    rewrite bind_Returns, mret_Returns, bind_Returns. channel_members.
    rewrite drop_ge, app_nil_r by lia.
    rewrite set_rand_same. reflexivity.
Qed.

(** X2.  With no coefficients given and a length from 1 to 1000, on a
    consistent channel, [add_multipath] returns: the channel has the
    stage on, [_h_len] coefficients of which the first is [1.0], and a
    filter created from them; the generator has advanced by two draws
    for each coefficient after the first, and nothing was printed. *)
Theorem add_multipath_synthesises q p (_h_len : N) :
  (_h_len <> 0)%N -> (_h_len <= 1000)%N -> h_consistent q ->
  exists q',
    add_multipath q p None _h_len =
      Returns (q', set_rand p (skip_draws (2 * (N.to_nat _h_len - 1)) (rand p))) /\
    enabled_multipath q' = 1%Z /\
    h_len q' = _h_len /\
    length (h q') = N.to_nat _h_len /\
    h q' !! 0 = Some (c_of_real f_zero f_one) /\
    channel_filter q' = Some (firfilt_create (h q') _h_len) /\
    noise_members q' = noise_members q /\
    carrier_members q' = carrier_members q.
Proof.
  intros Hz Hmax Hq.
  destruct (add_multipath_random p Hz Hmax Hq) as (q' & Hret & Hh).
  destruct (random_taps_shape (N.to_nat _h_len - 1) (rand p)) as [Hlen Hgen].
  pose proof (add_multipath_returns q p None _h_len) as Hfacts.
  rewrite Hret in Hfacts. destruct Hfacts as (Hn & Hc & _ & Hnz).
  destruct (Hnz Hz) as (Hen & Hl & _ & Hf).
  exists q'. rewrite <- Hgen. split; [exact Hret|].
  split; [exact Hen|]. split; [exact Hl|].
  split; [rewrite Hh; simpl; rewrite Hlen; lia|].
  split; [rewrite Hh; reflexivity|].
  split; [exact Hf|]. split; assumption.
Qed.

(** [add_multipath] with a length up to 1000 does not end the process. *)
Lemma add_multipath_in_range_returns q p (_h : option (list TC)) (_h_len : N) :
  (_h_len <= 1000)%N -> returns (add_multipath q p _h _h_len) (fun _ => True).
Proof.
  intros Hmax. unfold add_multipath.
  destruct (N.eqb_spec _h_len 0) as [|_]; [exact I|].
  destruct (N.ltb_spec 1000 _h_len) as [|_]; [exfalso; lia|].
  set (q1 := set_h_len _ _). clearbody q1.
  eapply returns_bind with (P := fun _ => True); [|intros [hs g] _; exact I].
  destruct _h as [src|].
  - eapply returns_bind; [apply returns_memmove|]. intros; exact I.
  - eapply returns_bind; [apply returns_store|]. intros hs _.
    apply (returns_for_loop random_tap_step (fun _ => True)); [|exact I].
    intros i [hs' g] _. unfold random_tap_step.
    destruct (randnf_operands (snd (hs', g))) as [[a b] g'].
    eapply returns_bind; [apply returns_store|]. intros; exact I.
Qed.

(** X3.  [add_multipath] ends the process exactly when the length is
    above 1000; the status is then 1, the channel is the one passed in,
    and the one thing done before is the line on stderr. *)
Theorem add_multipath_exits_iff q p (_h : option (list TC)) (_h_len : N)
    (status : Z) (s : chan * proc) :
  add_multipath q p _h _h_len = Exits status s <->
  (1000 < _h_len)%N /\ status = 1%Z /\ s = (q, fprintf_stderr p warning_maximum).
Proof.
  split.
  - intros Hexit. destruct (N.ltb_spec 1000 _h_len) as [Hlt|Hle].
    + split; [exact Hlt|]. unfold add_multipath in Hexit.
      destruct (N.eqb_spec _h_len 0) as [->|_]; [exfalso; lia|].
      destruct (N.ltb_spec 1000 _h_len) as [_|]; [|exfalso; lia].
      injection Hexit as <- <-. split; reflexivity.
    + pose proof (add_multipath_in_range_returns q p _h Hle) as Hr.
      rewrite Hexit in Hr. contradiction.
  - intros (Hlt & -> & ->). unfold add_multipath.
    destruct (N.eqb_spec _h_len 0) as [->|_]; [exfalso; lia|].
    destruct (N.ltb_spec 1000 _h_len); [reflexivity|exfalso; lia].
Qed.

End MultipathFacts.

(** ** The order of configuration *)

Section OrderFacts.
Context {F D RNG NCO FIRFILT : Type}.
Context {float_ops : FloatOps F D} {randn : Randn F RNG}.
Context {oscillator : Oscillator F NCO} {filter : Filter F FIRFILT}.
Context {template : Template F}.

Local Abbreviation TC := (complex F).
Local Abbreviation chan := (channel F NCO FIRFILT).
Local Abbreviation proc := (process RNG).

Implicit Types (q : chan) (p : proc).

(** Filling the coefficients does not end the process. *)
Lemma fill_coefficients_returns (hs0 : list TC) (g : RNG)
    (_h : option (list TC)) (n : nat) :
  returns (St:=chan * proc)
    (match _h with
     | None =>
         hs ← store hs0 0 (c_of_real f_zero f_one);
         for_loop random_tap_step 1 (n - 1) (hs, g)
     | Some src => hs ← memmove hs0 src n; mret (hs, g)
     end)
    (fun _ => True).
Proof.
  destruct _h as [src|].
  - eapply returns_bind; [apply returns_memmove|]. intros; exact I.
  - eapply returns_bind; [apply returns_store|]. intros hs _.
    apply (returns_for_loop random_tap_step (fun _ => True)); [|exact I].
    intros i [hs' g'] _. unfold random_tap_step.
    destruct (randnf_operands (snd (hs', g'))) as [[a b] g''].
    eapply returns_bind; [apply returns_store|]. intros; exact I.
Qed.

(** [add_multipath] reads and writes the multipath members only, so a
    change [f] of the other members can be made before or after it. *)
Lemma add_multipath_on_channel (f : chan -> chan) q p
    (_h : option (list TC)) (_h_len : N) :
  (forall q0, multipath_members (f q0) = multipath_members q0) ->
  (forall q0 en, f (set_enabled_multipath q0 en) = set_enabled_multipath (f q0) en) ->
  (forall q0 hs, f (set_h q0 hs) = set_h (f q0) hs) ->
  (forall q0 n, f (set_h_len q0 n) = set_h_len (f q0) n) ->
  (forall q0 fl, f (set_channel_filter q0 fl) = set_channel_filter (f q0) fl) ->
  add_multipath (f q) p _h _h_len = on_channel f (add_multipath q p _h _h_len).
Proof.
  intros Hm Hen Hh Hl Hf. unfold add_multipath.
  destruct (_h_len =? 0)%N; [reflexivity|].
  destruct (1000 <? _h_len)%N; [reflexivity|].
  assert (Hlen : h_len (set_enabled_multipath (f q) 1) =
                 h_len (set_enabled_multipath q 1)).
  { cbn. pose proof (Hm q) as E. injection E as _ _ _ E. exact E. }
  assert (Hhq : h (f q) = h q).
  { pose proof (Hm q) as E. injection E as _ _ E _. exact E. }
  rewrite Hlen.
  destruct (negb (h_len (set_enabled_multipath q 1) =? _h_len)%N);
    channel_members; rewrite Hhq;
    match goal with
    | |- ?m ≫= _ = on_channel _ (?m ≫= _) =>
        assert (Hr : returns m (fun _ => True))
          by apply fill_coefficients_returns;
        destruct m as [[hs g]| |]
    end; try reflexivity; try contradiction;
    rewrite !bind_Returns, !mret_Returns; unfold on_channel; cbn [fst snd];
    repeat (rewrite Hf || rewrite Hh || rewrite Hl || rewrite Hen);
    reflexivity.
Qed.

(** X4.  Configurators of different stages can be called in either
    order: [add_awgn] and [add_carrier_offset] commute, and each of them
    commutes with [add_multipath], whatever [add_multipath] does (return,
    [exit], or an access outside the coefficients given). *)
Theorem configurators_commute q p (nf snr fr ph : F)
    (_h : option (list TC)) (_h_len : N) :
  add_awgn (add_carrier_offset q fr ph) nf snr =
    add_carrier_offset (add_awgn q nf snr) fr ph /\
  add_multipath (add_awgn q nf snr) p _h _h_len =
    on_channel (fun q' => add_awgn q' nf snr) (add_multipath q p _h _h_len) /\
  add_multipath (add_carrier_offset q fr ph) p _h _h_len =
    on_channel (fun q' => add_carrier_offset q' fr ph)
               (add_multipath q p _h _h_len).
Proof.
  split; [reflexivity|]. split.
  - apply (add_multipath_on_channel (fun q' => add_awgn q' nf snr));
      reflexivity.
  - apply (add_multipath_on_channel (fun q' => add_carrier_offset q' fr ph));
      reflexivity.
Qed.

End OrderFacts.

(** ** What [execute] touches *)

Section TouchFacts.
Context {F D RNG NCO FIRFILT : Type}.
Context {float_ops : FloatOps F D} {randn : Randn F RNG}.
Context {oscillator : Oscillator F NCO} {filter : Filter F FIRFILT}.
Context {template : Template F}.

Local Abbreviation TC := (complex F).
Local Abbreviation chan := (channel F NCO FIRFILT).
Local Abbreviation proc := (process RNG).

Implicit Types (q : chan) (p : proc) (v : TC).

(** What the configurators set: everything but the oscillator and the
    filter. *)
Local Abbreviation settings q :=
  (noise_members q, (enabled_carrier q, dphi q, phi q),
   (enabled_multipath q, h q, h_len q)).

(** What one sample leaves as it was, and how far the generator goes. *)
Local Abbreviation sample_frame q p q' p' :=
  (settings q' = settings q /\
   stderr p' = stderr p /\ stdout p' = stdout p /\
   (nonzero (enabled_carrier q) = false -> nco q' = nco q) /\
   (nonzero (enabled_multipath q) = false ->
    channel_filter q' = channel_filter q)).

Lemma pipeline_sample_frame q p v :
  sample_frame q p (fst (fst (pipeline_sample q p v)))
                   (snd (fst (pipeline_sample q p v))) /\
  rand (snd (fst (pipeline_sample q p v))) =
    if nonzero (enabled_awgn q) then skip_draws 2 (rand p) else rand p.
Proof.
  unfold pipeline_sample, stage_multipath, stage_carrier, stage_noise.
  destruct (nonzero (enabled_multipath q)) eqn:Em;
    [destruct (channel_filter q) as [f|] eqn:Ef;
       [destruct (firfilt_execute (firfilt_push f v)) as [w f']|]|];
    channel_members;
    (destruct (nonzero (enabled_carrier q)) eqn:Ec;
       [match goal with
        | |- context [nco_mix_up ?n ?x] => destruct (nco_mix_up n x)
        end|]);
    channel_members;
    (destruct (nonzero (enabled_awgn q)) eqn:Ea;
       [match goal with
        | |- context [randnf_operands ?g] =>
            pose proof (randnf_operands_generator g) as Hg;
            destruct (randnf_operands g) as [[? ?] ?]
        end|]);
    cbn in *; subst; repeat split; intros; congruence.
Qed.

Lemma pipeline_frame (xs : list TC) : forall q p,
  sample_frame q p (fst (fst (pipeline q p xs))) (snd (fst (pipeline q p xs))) /\
  rand (snd (fst (pipeline q p xs))) =
    if nonzero (enabled_awgn q) then skip_draws (2 * length xs) (rand p)
    else rand p.
Proof.
  induction xs as [|v xs IH]; intros q p.
  - simpl. destruct (nonzero (enabled_awgn q)); repeat split; reflexivity.
  - rewrite pipeline_cons. cbn zeta. cbn [fst snd].
    destruct (pipeline_sample_frame q p v) as ((Hs & He & Ho & Hn & Hf) & Hr).
    destruct (IH (fst (fst (pipeline_sample q p v)))
                 (snd (fst (pipeline_sample q p v))))
      as ((Hs' & He' & Ho' & Hn' & Hf') & Hr').
    unfold noise_members in Hs, Hs' |- *.
    injection Hs as Ha Hg Hsd Hnf Hsn Hec Hdp Hph Hem Hh Hhl.
    injection Hs' as Ha' Hg' Hsd' Hnf' Hsn' Hec' Hdp' Hph' Hem' Hh' Hhl'.
    split; [split; [congruence|]|].
    + split; [congruence|]. split; [congruence|].
      rewrite Hec, Hem in *. split; intros E.
      * rewrite Hn', Hn by exact E. reflexivity.
      * rewrite Hf', Hf by exact E. reflexivity.
    + rewrite Hr', Hr, Ha. destruct (nonzero (enabled_awgn q)); [|reflexivity].
      rewrite <- skip_draws_add. f_equal. simpl. lia.
Qed.

(** X5.  [execute] changes nothing that a configurator sets (the flags,
    the noise parameters, frequency and phase, the coefficients and their
    length), prints nothing, and leaves alone what belongs to a stage
    that is off: the oscillator when the carrier is off, the filter when
    multipath is off, the generator when noise is off. *)
Theorem execute_frame q p (_x _y : list TC) (_nx : N) :
  N.to_nat _nx <= length _x -> N.to_nat _nx <= length _y -> filter_ready q ->
  exists q' p' y',
    execute q p _x _nx _y = Returns (q', p', y', _nx) /\
    settings q' = settings q /\
    stderr p' = stderr p /\ stdout p' = stdout p /\
    length y' = length _y /\
    (nonzero (enabled_carrier q) = false -> nco q' = nco q) /\
    (nonzero (enabled_multipath q) = false ->
     channel_filter q' = channel_filter q) /\
    (nonzero (enabled_awgn q) = false -> rand p' = rand p).
Proof.
  intros Hx Hy Hq. rewrite execute_returns by assumption. cbn zeta.
  set (r := pipeline q p (take (N.to_nat _nx) _x)).
  destruct (pipeline_frame (take (N.to_nat _nx) _x) q p)
    as ((Hs & He & Ho & Hn & Hf) & Hr). fold r in Hs, He, Ho, Hn, Hf, Hr.
  exists (fst (fst r)), (snd (fst r)), (snd r ++ drop (N.to_nat _nx) _y).
  split; [reflexivity|]. split; [exact Hs|]. split; [exact He|].
  split; [exact Ho|].
  split.
  { subst r. rewrite length_app, pipeline_length, length_take, length_drop. lia. }
  split; [exact Hn|]. split; [exact Hf|].
  intros Ea. rewrite Hr, Ea. reflexivity.
Qed.

(** X6.  With the noise stage on, [execute] takes exactly two draws from
    the generator for each sample, [2 * _nx] in all. *)
Theorem execute_draws q p (_x _y : list TC) (_nx : N) :
  N.to_nat _nx <= length _x -> N.to_nat _nx <= length _y -> filter_ready q ->
  nonzero (enabled_awgn q) = true ->
  exists q' p' y',
    execute q p _x _nx _y = Returns (q', p', y', _nx) /\
    rand p' = skip_draws (2 * N.to_nat _nx) (rand p).
Proof.
  intros Hx Hy Hq Ea. rewrite execute_returns by assumption. cbn zeta.
  destruct (pipeline_frame (take (N.to_nat _nx) _x) q p) as (_ & Hr).
  eexists _, _, _. split; [reflexivity|].
  rewrite Hr, Ea, length_take. f_equal. lia.
Qed.

End TouchFacts.

(** ** Whole lives of a channel *)

Section HistoryFacts.
Context {F D RNG NCO FIRFILT : Type}.
Context {float_ops : FloatOps F D} {randn : Randn F RNG}.
Context {oscillator : Oscillator F NCO} {filter : Filter F FIRFILT}.
Context {template : Template F}.

Local Abbreviation TC := (complex F).
Local Abbreviation chan := (channel F NCO FIRFILT).
Local Abbreviation proc := (process RNG).

Implicit Types (q : chan) (p : proc).

Local Abbreviation carrier_settings q := (enabled_carrier q, dphi q, phi q).
Local Abbreviation multipath_settings q := (enabled_multipath q, h q, h_len q).

(** What the loop of [execute] keeps, whether or not its accesses are
    defined. *)
Local Abbreviation loop_keeps q p q' p' :=
  (noise_members q' = noise_members q /\
   carrier_settings q' = carrier_settings q /\
   multipath_settings q' = multipath_settings q /\
   stderr p' = stderr p /\ stdout p' = stdout p /\
   (is_Some (channel_filter q) <-> is_Some (channel_filter q'))).

Lemma execute_sample_keeps (_x : list TC) i q p (_y : list TC) :
  returns (execute_sample _x i (q, p, _y))
          (fun s => loop_keeps q p (fst (fst s)) (snd (fst s))).
Proof.
  unfold execute_sample, load, store.
  repeat (case_match; simplify_eq/=; try done);
    repeat split; intros; eauto.
Qed.

Lemma execute_keeps q p (_x _y : list TC) (_nx : N) :
  returns (execute q p _x _nx _y)
          (fun r => loop_keeps q p (fst (fst (fst r))) (snd (fst (fst r)))).
Proof.
  unfold execute. eapply returns_bind.
  - apply (returns_for_loop (execute_sample _x)
             (fun s => loop_keeps q p (fst (fst s)) (snd (fst s)))).
    + intros i [[q1 p1] y1] Hs. eapply returns_weaken.
      * apply execute_sample_keeps.
      * intros s Hs'. cbn [fst snd] in *.
        destruct Hs as (H1 & H2 & H3 & H4 & H5 & H6),
                 Hs' as (H1' & H2' & H3' & H4' & H5' & H6').
        repeat split; try congruence; tauto.
    + cbn [fst snd]. repeat split; tauto.
  - intros [[q1 p1] y1] Hs. exact Hs.
Qed.

Lemma add_multipath_Returns_length q p (_h : option (list TC)) (_h_len : N) s :
  add_multipath q p _h _h_len = Returns s -> (_h_len <= 1000)%N.
Proof.
  unfold add_multipath. destruct (N.eqb_spec _h_len 0) as [->|_]; [lia|].
  destruct (N.ltb_spec 1000 _h_len); [discriminate|auto].
Qed.

(** *** An invariant of the channels a caller can hold *)

Local Abbreviation well_formed q :=
  (h_consistent q /\ (N.le 1 (h_len q) /\ N.le (h_len q) 1000) /\
   (is_Some (channel_filter q) <-> nonzero (enabled_multipath q) = true) /\
   (enabled_awgn q = 0%Z \/ enabled_awgn q = 1%Z) /\
   (enabled_carrier q = 0%Z \/ enabled_carrier q = 1%Z) /\
   (enabled_multipath q = 0%Z \/ enabled_multipath q = 1%Z)).

Lemma apply_operation_well_formed (o : operation) (s : chan * proc) :
  well_formed (fst s) ->
  match apply_operation o s with
  | Returns s' => well_formed (fst s')
  | Exits _ s' => well_formed (fst s')
  | Undefined => True
  end.
Proof.
  destruct s as [q p]. cbn [fst]. intros (Hh & Hl & Hf & Ha & Hc & Hm).
  destruct o as [nf snr|fr ph|_h _h_len|_x _nx _y|]; simpl.
  - repeat split; try tauto; apply Hf.
  - repeat split; try tauto; apply Hf.
  - pose proof (add_multipath_returns q p _h _h_len) as H.
    pose proof (@add_multipath_Returns_length q p _h _h_len) as Hle.
    destruct (add_multipath q p _h _h_len) as [[q' p']|st [q' p']|]; simpl.
    + destruct H as (Hn & Hcm & Hz & Hnz).
      destruct (N.eq_dec _h_len 0%N) as [E|E].
      * rewrite (Hz E). repeat split; try tauto; apply Hf.
      * destruct (Hnz E) as (Hen & Hlen & Hcons & Hfilter).
        specialize (Hle _ eq_refl).
        unfold noise_members, carrier_members in Hn, Hcm.
        injection Hn as Hn _ _ _ _. injection Hcm as Hcm _ _ _.
        rewrite Hn, Hcm, Hen, Hlen, Hfilter.
        repeat split; try tauto; try lia; eauto.
    + subst q'. repeat split; try tauto; apply Hf.
    + exact I.
  - pose proof (execute_keeps q p _x _y _nx) as H.
    destruct (execute q p _x _nx _y) as [[[[q' p'] y'] ny]|st [q' p']|];
      simpl in *; [|contradiction|exact I].
    destruct H as (Hn & Hcs & Hms & _ & _ & Hsome).
    unfold noise_members, h_consistent in *.
    injection Hn as Hn _ _ _ _. injection Hcs as Hcs _ _.
    injection Hms as Hms Hhh Hhl.
    rewrite Hn, Hcs, Hms, Hhh, Hhl, <- Hsome.
    repeat split; try tauto; apply Hf.
  - repeat split; try tauto; apply Hf.
Qed.

(** X7.  Every channel a caller can hold, from [create] through any
    operations, up to a return or the [exit] of [add_multipath], is well
    formed: [h] has [h_len] elements, with [h_len] from 1 to 1000; it
    owns a filter exactly when the multipath stage is on; each flag is 0
    or 1. *)
Theorem reachable_well_formed (fresh : chan) (_h : option (list TC)) (_n : N)
    p (ops : list operation) q' :
  channel_left (run ops (create fresh _h _n, p)) = Some q' ->
  length (h q') = N.to_nat (h_len q') /\
  (1 <= h_len q' <= 1000)%N /\
  (is_Some (channel_filter q') <-> nonzero (enabled_multipath q') = true) /\
  (enabled_awgn q' = 0 \/ enabled_awgn q' = 1)%Z /\
  (enabled_carrier q' = 0 \/ enabled_carrier q' = 1)%Z /\
  (enabled_multipath q' = 0 \/ enabled_multipath q' = 1)%Z.
Proof.
  assert (Hgen : forall ops (s : chan * proc) q',
            well_formed (fst s) -> channel_left (run ops s) = Some q' ->
            well_formed q').
  { clear. induction ops as [|o ops IH]; intros s q' Hs Hleft.
    - injection Hleft as <-. exact Hs.
    - cbn [run] in Hleft.
      pose proof (apply_operation_well_formed o s Hs) as Hstep.
      destruct (apply_operation o s) as [s1|st s1|]; cbn in Hleft.
      + eapply IH; eassumption.
      + injection Hleft as <-. exact Hstep.
      + discriminate Hleft. }
  intros Hleft. apply (Hgen ops (create fresh _h _n, p) q'); [|exact Hleft].
  cbn. unfold h_consistent. cbn.
  repeat split; try tauto; try lia; try discriminate.
  intros [f Hf]. discriminate Hf.
Qed.

(** *** Only a stage's configurator changes its settings *)

Lemma apply_operation_settings (o : operation) (s : chan * proc) :
  match apply_operation o s with
  | Returns s' | Exits _ s' =>
      (is_add_awgn o = false -> noise_members (fst s') = noise_members (fst s)) /\
      (is_add_carrier_offset o = false ->
       carrier_settings (fst s') = carrier_settings (fst s)) /\
      (is_add_multipath o = false ->
       multipath_settings (fst s') = multipath_settings (fst s) /\
       (is_Some (channel_filter (fst s)) <-> is_Some (channel_filter (fst s'))))
  | Undefined => True
  end.
Proof.
  destruct s as [q p].
  destruct o as [nf snr|fr ph|_h _h_len|_x _nx _y|]; simpl;
    try (repeat split; intros; (discriminate || tauto)).
  - pose proof (add_multipath_returns q p _h _h_len) as H.
    destruct (add_multipath q p _h _h_len) as [[q' p']|st [q' p']|]; simpl.
    + destruct H as (Hn & Hc & _). unfold carrier_members in Hc.
      injection Hc as -> -> -> _.
      repeat split; intros; (discriminate || assumption).
    + subst q'. repeat split; intros; (discriminate || tauto).
    + exact I.
  - pose proof (execute_keeps q p _x _y _nx) as H.
    destruct (execute q p _x _nx _y) as [[[[q' p'] y'] ny]|st [q' p']|];
      simpl in *; [|contradiction|exact I].
    destruct H as (Hn & Hcs & Hms & _ & _ & Hsome).
    repeat split; intros; try assumption; apply Hsome; assumption.
Qed.

(** X8.  Over any sequence of operations, the settings of a stage are
    those it started with unless the sequence contains the stage's own
    configurator: the noise members without [add_awgn]; flag, frequency
    and phase of the carrier without [add_carrier_offset]; flag,
    coefficients, length and the presence of a filter without
    [add_multipath]. *)
Theorem settings_change_only_by_configurator (ops : list operation)
    (s : chan * proc) q' :
  channel_left (run ops s) = Some q' ->
  (forallb (fun o => negb (is_add_awgn o)) ops = true ->
   noise_members q' = noise_members (fst s)) /\
  (forallb (fun o => negb (is_add_carrier_offset o)) ops = true ->
   carrier_settings q' = carrier_settings (fst s)) /\
  (forallb (fun o => negb (is_add_multipath o)) ops = true ->
   multipath_settings q' = multipath_settings (fst s) /\
   (is_Some (channel_filter (fst s)) <-> is_Some (channel_filter q'))).
Proof.
  revert s. induction ops as [|o ops IH]; intros s Hleft.
  - injection Hleft as <-. repeat split; intros; tauto.
  - cbn [run] in Hleft. cbn [forallb].
    pose proof (apply_operation_settings o s) as Hstep.
    destruct (apply_operation o s) as [s1|st s1|]; cbn in Hleft.
    + destruct (IH s1 Hleft) as (Ha & Hc & Hm).
      destruct Hstep as (Ha1 & Hc1 & Hm1).
      split; [|split].
      * intros [Ho Hops]%andb_prop. apply negb_true_iff in Ho.
        rewrite (Ha Hops). apply Ha1, Ho.
      * intros [Ho Hops]%andb_prop. apply negb_true_iff in Ho.
        rewrite (Hc Hops). apply Hc1, Ho.
      * intros [Ho Hops]%andb_prop. apply negb_true_iff in Ho.
        destruct (Hm Hops) as (E & Hs), (Hm1 Ho) as (E1 & Hs1).
        split; [congruence|tauto].
    + injection Hleft as <-. destruct Hstep as (Ha1 & Hc1 & Hm1).
      split; [|split]; intros [Ho _]%andb_prop; apply negb_true_iff in Ho; auto.
    + discriminate Hleft.
Qed.

End HistoryFacts.

(** ** [print] and [destroy] at the end of a life *)

Section EndFacts.
Context {F D RNG NCO FIRFILT : Type}.
Context {float_ops : FloatOps F D} {randn : Randn F RNG}.
Context {oscillator : Oscillator F NCO} {filter : Filter F FIRFILT}.
Context {template : Template F}.

Local Abbreviation TC := (complex F).
Local Abbreviation chan := (channel F NCO FIRFILT).
Local Abbreviation proc := (process RNG).

Implicit Types (q : chan) (p : proc).

(** The noise flag after a sequence that returns: 1 if [add_awgn] was
    applied, and what it was if not. *)
Lemma run_enabled_awgn (ops : list operation) : forall (s s' : chan * proc),
  run ops s = Returns s' ->
  enabled_awgn (fst s') =
    if existsb is_add_awgn ops then 1%Z else enabled_awgn (fst s).
Proof.
  induction ops as [|o ops IH]; intros s s' Hrun.
  - injection Hrun as <-. reflexivity.
  - cbn [run] in Hrun. cbn [existsb].
    pose proof (apply_operation_settings o s) as Hstep.
    destruct (apply_operation o s) as [s1|st s1|] eqn:Hop;
      [|discriminate Hrun|discriminate Hrun].
    rewrite bind_Returns in Hrun. rewrite (IH s1 s' Hrun).
    destruct (existsb is_add_awgn ops); [rewrite orb_true_r; reflexivity|].
    rewrite orb_false_r. destruct Hstep as (Ha & _).
    destruct o; cbn [is_add_awgn];
      try (specialize (Ha eq_refl); unfold noise_members in Ha;
           injection Ha as -> _ _ _ _; reflexivity).
    destruct s as [q p]. injection Hop as <-. reflexivity.
Qed.

(** X9.  At the end of a life that began with [create], [print] writes
    the line "channel", followed by the line "  AWGN:" exactly when
    [add_awgn] was called at some time; it writes nothing about the
    carrier or the multipath stage, nothing to stderr, and takes no
    draw. *)
Theorem print_reports_awgn (fresh : chan) (_h : option (list TC)) (_n : N)
    p (ops : list operation) q' p' :
  run ops (create fresh _h _n, p) = Returns (q', p') ->
  stdout (print q' p') =
    stdout p' ++ ("channel" ++ newline)%string ::
    (if existsb is_add_awgn ops then [("  AWGN:" ++ newline)%string] else []) /\
  stderr (print q' p') = stderr p' /\
  rand (print q' p') = rand p'.
Proof.
  intros Hrun. pose proof (run_enabled_awgn _ _ Hrun) as Ha.
  cbn [fst create enabled_awgn] in Ha. unfold print. rewrite Ha.
  destruct (existsb is_add_awgn ops); cbn.
  - rewrite <- app_assoc. repeat split; reflexivity.
  - repeat split; reflexivity.
Qed.

(** *** The filters created and destroyed *)

Local Abbreviation created cs := (length (List.filter is_firfilt_create cs)).
Local Abbreviation destroyed cs := (length (List.filter is_firfilt_destroy cs)).
Local Abbreviation owned q :=
  (match channel_filter q with Some _ => 1 | None => 0 end).

Lemma add_multipath_calls_balance q p (_h : option (list TC)) (_h_len : N) s' :
  add_multipath q p _h _h_len = Returns s' ->
  created (add_multipath_calls q p _h _h_len) + owned q =
  destroyed (add_multipath_calls q p _h _h_len) + owned (fst s').
Proof.
  intros Hret. unfold add_multipath_calls.
  pose proof (add_multipath_returns q p _h _h_len) as H.
  rewrite Hret in *. destruct s' as [q' p'].
  destruct H as (_ & _ & Hz & Hnz). cbn [fst].
  destruct (N.eqb_spec _h_len 0) as [E|E].
  - rewrite (Hz E). reflexivity.
  - destruct (Hnz E) as (_ & _ & _ & ->).
    destruct (channel_filter q); reflexivity.
Qed.

Lemma run_calls_balance (ops : list operation) : forall (s s' : chan * proc),
  run ops s = Returns s' ->
  created (run_calls ops s) + owned (fst s) =
  destroyed (run_calls ops s) + owned (fst s').
Proof.
  induction ops as [|o ops IH]; intros s s' Hrun.
  - injection Hrun as <-. reflexivity.
  - cbn [run run_calls] in *.
    destruct (apply_operation o s) as [s1|st s1|] eqn:Hop;
      [|discriminate Hrun|discriminate Hrun].
    rewrite bind_Returns in Hrun. specialize (IH s1 s' Hrun).
    rewrite !List.filter_app, !length_app.
    assert (Hstep :
      created (match o with
               | Op_add_multipath _h _h_len =>
                   add_multipath_calls (fst s) (snd s) _h _h_len
               | _ => []
               end) + owned (fst s) =
      destroyed (match o with
                 | Op_add_multipath _h _h_len =>
                     add_multipath_calls (fst s) (snd s) _h _h_len
                 | _ => []
                 end) + owned (fst s1)).
    { destruct s as [q p].
      pose proof (apply_operation_settings o (q, p)) as Hset.
      rewrite Hop in Hset. destruct Hset as (_ & _ & Hm).
      destruct o as [nf snr|fr ph|_h _h_len|_x _nx _y|]; cbn [fst snd];
        try (destruct (Hm eq_refl) as (_ & [Hs1 Hs2]); cbn [fst] in *;
             destruct (channel_filter q), (channel_filter (fst s1));
             try reflexivity;
             [destruct Hs1 as [? ?]; [eauto|discriminate]
             |destruct Hs2 as [? ?]; [eauto|discriminate]]).
      apply add_multipath_calls_balance. exact Hop. }
    lia.
Qed.

(** X10.  Over a whole life (create, operations that all return, then
    destroy) the filter library sees as many calls of its destroy as of
    its create: [add_multipath] destroys the filter it replaces, and
    [destroy] destroys the last one, and only if there is one. *)
Theorem filters_created_are_destroyed (fresh : chan) (_h : option (list TC))
    (_n : N) p (ops : list operation) q' p' :
  run ops (create fresh _h _n, p) = Returns (q', p') ->
  created (run_calls ops (create fresh _h _n, p) ++ destroy q') =
  destroyed (run_calls ops (create fresh _h _n, p) ++ destroy q').
Proof.
  intros Hrun. pose proof (run_calls_balance _ _ Hrun) as Hbal.
  cbn [fst create channel_filter] in Hbal.
  rewrite !List.filter_app, !length_app. unfold destroy.
  destruct (channel_filter q'); cbn in *; lia.
Qed.

End EndFacts.

(** ** The noise stage comes last *)

Section NoiseLastFacts.
Context {F D RNG NCO FIRFILT : Type}.
Context {float_ops : FloatOps F D} {randn : Randn F RNG}.
Context {oscillator : Oscillator F NCO} {filter : Filter F FIRFILT}.
Context {template : Template F}.

Local Abbreviation TC := (complex F).
Local Abbreviation chan := (channel F NCO FIRFILT).
Local Abbreviation proc := (process RNG).

Implicit Types (q qn : chan) (p : proc) (v : TC).

(** A channel that applies the noise of [q] and nothing else. *)
Local Abbreviation noise_of q qn :=
  (nonzero (enabled_multipath qn) = false /\
   nonzero (enabled_carrier qn) = false /\
   noise_members qn = noise_members q).

Lemma pipeline_sample_noise_last q qn p p0 v :
  noise_of q qn ->
  let s := pipeline_sample q p v in
  let s0 := pipeline_sample (without_noise q) p0 v in
  fst (fst s0) = without_noise (fst (fst s)) /\
  snd (fst s0) = p0 /\
  pipeline_sample qn p (snd s0) = (qn, snd (fst s), snd s).
Proof.
  intros (Hm & Hc & Hn). unfold noise_members in Hn.
  injection Hn as Ha Hg Hsd _ _.
  unfold pipeline_sample at 3.
  rewrite (stage_multipath_off _ _ Hm), (stage_carrier_off _ _ Hc).
  unfold stage_noise at 1. rewrite Ha, Hg, Hsd.
  unfold pipeline_sample, stage_multipath, stage_carrier, stage_noise,
    without_noise.
  channel_members.
  destruct (nonzero (enabled_multipath q));
    [destruct (channel_filter q) as [f|];
       [destruct (firfilt_execute (firfilt_push f v)) as [w f']|]|];
    channel_members;
    (destruct (nonzero (enabled_carrier q));
       [match goal with
        | |- context [nco_mix_up ?n ?x] => destruct (nco_mix_up n x)
        end|]);
    channel_members;
    (destruct (nonzero (enabled_awgn q));
       [destruct (randnf_operands (rand p)) as [[? ?] ?]|]);
    repeat split.
Qed.

Lemma pipeline_noise_last (xs : list TC) : forall q qn p p0,
  noise_of q qn ->
  let r := pipeline q p xs in
  let r0 := pipeline (without_noise q) p0 xs in
  fst (fst r0) = without_noise (fst (fst r)) /\
  snd (fst r0) = p0 /\
  pipeline qn p (snd r0) = (qn, snd (fst r), snd r).
Proof.
  induction xs as [|v xs IH]; intros q qn p p0 Hqn; cbn zeta.
  - repeat split.
  - rewrite !pipeline_cons. cbn zeta. cbn [fst snd].
    destruct (pipeline_sample_noise_last p p0 v Hqn) as (Hq0 & Hp0 & Hstep).
    cbn zeta in *. rewrite Hq0, Hp0.
    assert (Hqn1 : noise_of (fst (fst (pipeline_sample q p v))) qn).
    { destruct Hqn as (Hm & Hc & Hn).
      destruct (pipeline_sample_keeps q p v) as (_ & Hkeep & _).
      cbn zeta in Hkeep. split; [exact Hm|]. split; [exact Hc|]. congruence. }
    destruct (IH _ qn (snd (fst (pipeline_sample q p v))) p0 Hqn1)
      as (Hr0 & Hrp & Hrest).
    cbn zeta in *. split; [exact Hr0|]. split; [exact Hrp|].
    rewrite pipeline_cons. cbn zeta. rewrite Hstep. cbn [fst snd].
    rewrite Hrest. reflexivity.
Qed.

(** X11.  The noise is applied last and feeds nothing back: [execute] on
    a channel gives what two calls give, one on the channel with its
    noise stage off (which takes no draw, and leaves the oscillator and
    the filter that the one call leaves), then one that applies only the
    noise to the output of the first. *)
Theorem execute_noise_last q p (_x _y y0 y1 : list TC) (_nx : N) :
  N.to_nat _nx <= length _x -> N.to_nat _nx <= length _y ->
  N.to_nat _nx <= length y0 -> N.to_nat _nx <= length y1 ->
  filter_ready q ->
  exists q' p' out mid out1,
    execute q p _x _nx _y = Returns (q', p', out, _nx) /\
    execute (without_noise q) p _x _nx y0 =
      Returns (without_noise q', p, mid, _nx) /\
    execute (noise_only q) p mid _nx y1 =
      Returns (noise_only q, p', out1, _nx) /\
    take (N.to_nat _nx) out1 = take (N.to_nat _nx) out.
Proof.
  intros Hx Hy Hy0 Hy1 Hq.
  set (xs := take (N.to_nat _nx) _x).
  assert (Hxs : length xs = N.to_nat _nx)
    by (subst xs; rewrite length_take; lia).
  assert (Hqn : noise_of q (noise_only q)) by (repeat split).
  destruct (pipeline_noise_last xs p p Hqn) as (Hq0 & Hp0 & Hrest).
  cbn zeta in *.
  set (r := pipeline q p xs) in *.
  set (r0 := pipeline (without_noise q) p xs) in *.
  exists (fst (fst r)), (snd (fst r)), (snd r ++ drop (N.to_nat _nx) _y).
  exists (snd r0 ++ drop (N.to_nat _nx) y0), (snd r ++ drop (N.to_nat _nx) y1).
  assert (Hmid : take (N.to_nat _nx) (snd r0 ++ drop (N.to_nat _nx) y0) = snd r0).
  { apply take_app_length'. subst r0. rewrite pipeline_length. lia. }
  split; [apply execute_returns; assumption|].
  split.
  { rewrite execute_returns; try assumption. cbn zeta. fold xs. fold r0.
    rewrite Hq0, Hp0. reflexivity. }
  split.
  { rewrite execute_returns.
    - cbn zeta. rewrite Hmid, Hrest. reflexivity.
    - rewrite length_app. subst r0. rewrite pipeline_length. lia.
    - exact Hy1.
    - intros H. discriminate H. }
  rewrite !take_app_length' by (subst r; rewrite pipeline_length; lia).
  reflexivity.
Qed.

End NoiseLastFacts.

(** ** The further properties on the bench *)

Lemma add_multipath_copies_witness :
  (3 <> 0)%N /\ (3 <= 1000)%N /\ h_consistent (fst Bench.configured) /\
  N.to_nat 3 <= length Bench.samples /\
  exists q',
    add_multipath (fst Bench.configured) (snd Bench.configured)
                  (Some Bench.samples) 3 = Returns (q', snd Bench.configured) /\
    h q' = take (N.to_nat 3) Bench.samples.
Proof.
  assert (H1 : (3 <> 0)%N) by discriminate.
  assert (H2 : (3 <= 1000)%N) by discriminate.
  assert (H3 : h_consistent (fst Bench.configured)) by (vm_compute; reflexivity).
  assert (H4 : N.to_nat 3 <= length Bench.samples) by (vm_compute; lia).
  split; [exact H1|]. split; [exact H2|]. split; [exact H3|]. split; [exact H4|].
  eexists. split.
  - exact (add_multipath_copies (snd Bench.configured) Bench.samples H1 H2 H3 H4).
  - reflexivity.
Defined.

Lemma add_multipath_synthesises_witness :
  (2 <> 0)%N /\ (2 <= 1000)%N /\ h_consistent Bench.new_channel /\
  exists q',
    add_multipath Bench.new_channel (Bench.with_tape Bench.tape) None 2 =
      Returns (q', set_rand (Bench.with_tape Bench.tape)
                     (skip_draws (2 * (N.to_nat 2 - 1)) Bench.tape)) /\
    length (h q') = N.to_nat 2 /\
    h q' !! 0 = Some (c_of_real f_zero f_one).
Proof.
  assert (H1 : (2 <> 0)%N) by discriminate.
  assert (H2 : (2 <= 1000)%N) by discriminate.
  assert (H3 : h_consistent Bench.new_channel) by reflexivity.
  split; [exact H1|]. split; [exact H2|]. split; [exact H3|].
  destruct (add_multipath_synthesises (Bench.with_tape Bench.tape) H1 H2 H3)
    as (q' & Hret & _ & _ & Hlen & Hh0 & _).
  exists q'. split; [exact Hret|]. split; [exact Hlen|exact Hh0].
Defined.

Lemma execute_frame_witness :
  N.to_nat 3 <= length Bench.samples /\
  N.to_nat 3 <= length (Bench.blank 4) /\
  filter_ready Bench.new_channel /\
  exists q' p' y',
    execute Bench.new_channel (Bench.with_tape Bench.tape)
            Bench.samples 3 (Bench.blank 4) = Returns (q', p', y', 3%N) /\
    nco q' = nco Bench.new_channel /\
    channel_filter q' = channel_filter Bench.new_channel /\
    rand p' = Bench.tape.
Proof.
  assert (H1 : N.to_nat 3 <= length Bench.samples) by (vm_compute; lia).
  assert (H2 : N.to_nat 3 <= length (Bench.blank 4)) by (vm_compute; lia).
  assert (H3 : filter_ready Bench.new_channel) by (intros H; discriminate H).
  split; [exact H1|]. split; [exact H2|]. split; [exact H3|].
  destruct (execute_frame (Bench.with_tape Bench.tape) Bench.samples
              (Bench.blank 4) 3 H1 H2 H3)
    as (q' & p' & y' & Hret & _ & _ & _ & _ & Hn & Hf & Hr).
  exists q', p', y'. split; [exact Hret|].
  split; [apply Hn; reflexivity|]. split; [apply Hf; reflexivity|].
  apply Hr. reflexivity.
Defined.

Lemma execute_draws_witness :
  N.to_nat 3 <= length Bench.samples /\
  N.to_nat 3 <= length (Bench.blank 4) /\
  filter_ready (fst Bench.configured) /\
  nonzero (enabled_awgn (fst Bench.configured)) = true /\
  exists q' p' y',
    execute (fst Bench.configured) (snd Bench.configured)
            Bench.samples 3 (Bench.blank 4) = Returns (q', p', y', 3%N) /\
    rand p' = skip_draws (2 * N.to_nat 3) (rand (snd Bench.configured)).
Proof.
  assert (H1 : N.to_nat 3 <= length Bench.samples) by (vm_compute; lia).
  assert (H2 : N.to_nat 3 <= length (Bench.blank 4)) by (vm_compute; lia).
  assert (H3 : filter_ready (fst Bench.configured))
    by (intros _; vm_compute; eexists; reflexivity).
  assert (H4 : nonzero (enabled_awgn (fst Bench.configured)) = true)
    by (vm_compute; reflexivity).
  split; [exact H1|]. split; [exact H2|]. split; [exact H3|]. split; [exact H4|].
  exact (execute_draws (snd Bench.configured) Bench.samples (Bench.blank 4) 3
           H1 H2 H3 H4).
Defined.

Lemma reachable_well_formed_witness :
  channel_left (run Bench.whole_life (Bench.new_channel, Bench.with_tape Bench.tape))
    = Some Bench.life_end /\
  length (h Bench.life_end) = N.to_nat (h_len Bench.life_end) /\
  (1 <= h_len Bench.life_end <= 1000)%N /\
  (is_Some (channel_filter Bench.life_end) <->
   nonzero (enabled_multipath Bench.life_end) = true).
Proof.
  assert (H : channel_left
                (run Bench.whole_life
                     (create Bench.raw_block None 0, Bench.with_tape Bench.tape))
              = Some Bench.life_end) by (vm_compute; reflexivity).
  split; [exact H|].
  destruct (reachable_well_formed Bench.raw_block None 0
              (Bench.with_tape Bench.tape) Bench.whole_life H)
    as (Hh & Hl & Hf & _).
  split; [exact Hh|]. split; [exact Hl|exact Hf].
Defined.

Lemma settings_change_only_by_configurator_witness :
  channel_left (run Bench.plain_ops Bench.configured) = Some Bench.plain_end /\
  forallb (fun o => negb (is_add_awgn o)) Bench.plain_ops = true /\
  noise_members Bench.plain_end = noise_members (fst Bench.configured).
Proof.
  assert (H : channel_left (run Bench.plain_ops Bench.configured) =
              Some Bench.plain_end) by (vm_compute; reflexivity).
  split; [exact H|]. split; [reflexivity|].
  exact (proj1 (settings_change_only_by_configurator
                  Bench.plain_ops Bench.configured H) eq_refl).
Defined.

Lemma print_reports_awgn_witness :
  run Bench.configuration (Bench.new_channel, Bench.with_tape Bench.tape) =
    Returns (fst Bench.configured, snd Bench.configured) /\
  stdout (print (fst Bench.configured) (snd Bench.configured)) =
    stdout (snd Bench.configured) ++
    [("channel" ++ newline)%string; ("  AWGN:" ++ newline)%string].
Proof.
  assert (H : run Bench.configuration
                (create Bench.raw_block None 0, Bench.with_tape Bench.tape) =
              Returns (fst Bench.configured, snd Bench.configured))
    by (vm_compute; reflexivity).
  split; [exact H|].
  exact (proj1 (print_reports_awgn Bench.raw_block None 0
                  (Bench.with_tape Bench.tape) Bench.configuration H)).
Defined.

Lemma filters_created_are_destroyed_witness :
  run Bench.configuration (Bench.new_channel, Bench.with_tape Bench.tape) =
    Returns (fst Bench.configured, snd Bench.configured) /\
  length (List.filter is_firfilt_create
            (run_calls Bench.configuration
               (Bench.new_channel, Bench.with_tape Bench.tape) ++
             destroy (fst Bench.configured))) =
  length (List.filter is_firfilt_destroy
            (run_calls Bench.configuration
               (Bench.new_channel, Bench.with_tape Bench.tape) ++
             destroy (fst Bench.configured))).
Proof.
  assert (H : run Bench.configuration
                (create Bench.raw_block None 0, Bench.with_tape Bench.tape) =
              Returns (fst Bench.configured, snd Bench.configured))
    by (vm_compute; reflexivity).
  split; [exact H|].
  exact (filters_created_are_destroyed Bench.raw_block None 0
           (Bench.with_tape Bench.tape) Bench.configuration H).
Defined.

Lemma execute_noise_last_witness :
  N.to_nat 3 <= length Bench.samples /\
  filter_ready (fst Bench.configured) /\
  exists q' p' out mid out1,
    execute (fst Bench.configured) (snd Bench.configured)
            Bench.samples 3 (Bench.blank 3) = Returns (q', p', out, 3%N) /\
    execute (without_noise (fst Bench.configured)) (snd Bench.configured)
            Bench.samples 3 (Bench.blank 4) =
      Returns (without_noise q', snd Bench.configured, mid, 3%N) /\
    execute (noise_only (fst Bench.configured)) (snd Bench.configured)
            mid 3 (Bench.blank 5) =
      Returns (noise_only (fst Bench.configured), p', out1, 3%N) /\
    take (N.to_nat 3) out1 = take (N.to_nat 3) out.
Proof.
  assert (H1 : N.to_nat 3 <= length Bench.samples) by (vm_compute; lia).
  assert (H2 : filter_ready (fst Bench.configured))
    by (intros _; vm_compute; eexists; reflexivity).
  split; [exact H1|]. split; [exact H2|].
  apply (execute_noise_last (snd Bench.configured) Bench.samples
           (Bench.blank 3) (Bench.blank 4) (Bench.blank 5) 3);
    try exact H1; try exact H2; vm_compute; lia.
Defined.
